(** * courtsdk: the engine's control loop

    A shallow embedding of [engine.go]: the stop predicate, the failure
    counter, the recovery rewind, the range allocation over the shared cursor,
    the persistence helper, the sequential recovery loop and the replica
    coordinator.  Go's [int] is taken as the 64-bit signed integer of the
    usual targets, carried as [Z] with the wrap-around written out. *)

From Stdlib Require Import ZArith List Bool Lia String.
Import ListNotations.
Local Open Scope Z_scope.

(** ** Go's [int] *)

Module GoInt.

Definition min_int : Z := - 2 ^ 63.
Definition max_int : Z := 2 ^ 63 - 1.

(** Two's complement reduction of a mathematical integer to 64 bits. *)
Definition wrap (z : Z) : Z := (z + 2 ^ 63) mod 2 ^ 64 - 2 ^ 63.

Definition in_int (z : Z) : Prop := min_int <= z <= max_int.

Definition add (a b : Z) : Z := wrap (a + b).
Definition sub (a b : Z) : Z := wrap (a - b).
Definition mul (a b : Z) : Z := wrap (a * b).

End GoInt.

(** ** The engine *)

(** Modelled from the spec: the declaration of the [Engine] struct is not among
    the sources in the form [engine.go] uses (the one at hand is older and has
    no failure or recovery limits); the fields below are the ones [engine.go]
    reads and writes, with the types their uses there require.  The callback,
    the channel, the collector, the store client and the wait group are not
    data of the control loop and are threaded separately where a function
    needs them. *)
Record Engine : Type := mkEngine {
  Court : string;
  Base : string;
  Failures : Z;
  Start : Z;
  End : Z;
  PageSize : Z;
  CurrentIndex : Z;
  Recoveries : Z;
  done : bool;
  IsConcurrent : bool;
  MaxReplicas : Z;
  ReplicaRange : Z;
  MaxFailures : Z;
  MaxRecoveries : Z;
  UseDefaultChannelControl : bool
}.

(** Field assignments [engine.F = v]. *)
Definition set_Failures (e : Engine) (v : Z) : Engine :=
  mkEngine (Court e) (Base e) v (Start e) (End e) (PageSize e)
    (CurrentIndex e) (Recoveries e) (done e) (IsConcurrent e) (MaxReplicas e)
    (ReplicaRange e) (MaxFailures e) (MaxRecoveries e)
    (UseDefaultChannelControl e).

Definition set_Start (e : Engine) (v : Z) : Engine :=
  mkEngine (Court e) (Base e) (Failures e) v (End e) (PageSize e)
    (CurrentIndex e) (Recoveries e) (done e) (IsConcurrent e) (MaxReplicas e)
    (ReplicaRange e) (MaxFailures e) (MaxRecoveries e)
    (UseDefaultChannelControl e).

Definition set_End (e : Engine) (v : Z) : Engine :=
  mkEngine (Court e) (Base e) (Failures e) (Start e) v (PageSize e)
    (CurrentIndex e) (Recoveries e) (done e) (IsConcurrent e) (MaxReplicas e)
    (ReplicaRange e) (MaxFailures e) (MaxRecoveries e)
    (UseDefaultChannelControl e).

Definition set_PageSize (e : Engine) (v : Z) : Engine :=
  mkEngine (Court e) (Base e) (Failures e) (Start e) (End e) v
    (CurrentIndex e) (Recoveries e) (done e) (IsConcurrent e) (MaxReplicas e)
    (ReplicaRange e) (MaxFailures e) (MaxRecoveries e)
    (UseDefaultChannelControl e).

Definition set_CurrentIndex (e : Engine) (v : Z) : Engine :=
  mkEngine (Court e) (Base e) (Failures e) (Start e) (End e) (PageSize e)
    v (Recoveries e) (done e) (IsConcurrent e) (MaxReplicas e)
    (ReplicaRange e) (MaxFailures e) (MaxRecoveries e)
    (UseDefaultChannelControl e).

Definition set_Recoveries (e : Engine) (v : Z) : Engine :=
  mkEngine (Court e) (Base e) (Failures e) (Start e) (End e) (PageSize e)
    (CurrentIndex e) v (done e) (IsConcurrent e) (MaxReplicas e)
    (ReplicaRange e) (MaxFailures e) (MaxRecoveries e)
    (UseDefaultChannelControl e).

Definition set_done (e : Engine) (v : bool) : Engine :=
  mkEngine (Court e) (Base e) (Failures e) (Start e) (End e) (PageSize e)
    (CurrentIndex e) (Recoveries e) v (IsConcurrent e) (MaxReplicas e)
    (ReplicaRange e) (MaxFailures e) (MaxRecoveries e)
    (UseDefaultChannelControl e).

Definition set_Concurrency (e : Engine) (replicas range : Z) : Engine :=
  mkEngine (Court e) (Base e) (Failures e) (Start e) (End e) (PageSize e)
    (CurrentIndex e) (Recoveries e) (done e) true replicas
    range (MaxFailures e) (MaxRecoveries e)
    (UseDefaultChannelControl e).

Definition set_ReplicaRange (e : Engine) (v : Z) : Engine :=
  mkEngine (Court e) (Base e) (Failures e) (Start e) (End e) (PageSize e)
    (CurrentIndex e) (Recoveries e) (done e) (IsConcurrent e) (MaxReplicas e)
    v (MaxFailures e) (MaxRecoveries e)
    (UseDefaultChannelControl e).

Definition set_MaxFailures (e : Engine) (v : Z) : Engine :=
  mkEngine (Court e) (Base e) (Failures e) (Start e) (End e) (PageSize e)
    (CurrentIndex e) (Recoveries e) (done e) (IsConcurrent e) (MaxReplicas e)
    (ReplicaRange e) v (MaxRecoveries e)
    (UseDefaultChannelControl e).

Definition set_MaxRecoveries (e : Engine) (v : Z) : Engine :=
  mkEngine (Court e) (Base e) (Failures e) (Start e) (End e) (PageSize e)
    (CurrentIndex e) (Recoveries e) (done e) (IsConcurrent e) (MaxReplicas e)
    (ReplicaRange e) (MaxFailures e) v
    (UseDefaultChannelControl e).

(** [http.StatusOK] and [http.StatusInternalServerError]. *)
Definition StatusOK : Z := 200.
Definition StatusInternalServerError : Z := 500.

(** ** The failure and recovery policy *)

(** [shouldStop]: the three branches in the order of the source; the log line
    of the first one is not modelled. *)
Definition shouldStop (engine : Engine) : bool :=
  if Failures engine >=? MaxFailures engine then true
  else if IsConcurrent engine && (CurrentIndex engine >? End engine) then true
  else if done engine then true
  else false.

(** [handleChannelStatus]: one status taken from the response channel. *)
Definition handleChannelStatus (engine : Engine) (status : Z) : Engine :=
  if negb (status =? StatusOK) then
    set_Failures engine (GoInt.add (Failures engine) 1)
  else if Failures engine >? 0 then
    set_Failures engine (GoInt.sub (Failures engine) 1)
  else engine.

(** [setRecoveryStart]: the rewind, skipped when nothing was fetched. *)
Definition setRecoveryStart (engine : Engine) : Engine :=
  if negb (CurrentIndex engine =? 0) then
    set_Start engine
      (GoInt.sub (CurrentIndex engine)
         (GoInt.mul (Failures engine) (PageSize engine)))
  else engine.

(** [Done]: the entry point's success mark. *)
Definition Done (engine : Engine) : Engine := set_done engine true.

(** ** Construction: [NewEngine] and its options *)

(** The part of the global [ControlConfig] map the control loop writes: the
    shared cursor under the key ["LastGoRoutineRange"].  Its initial content
    is declared outside [engine.go] and is a parameter of what follows. *)
Record ControlConfig : Type := mkControl { LastGoRoutineRange : Z }.

(** An option acts on the engine under construction and, for [Start], on the
    global map. *)
Definition EngineOption : Type := Engine * ControlConfig -> Engine * ControlConfig.

Definition emptyString : string := EmptyString.

Definition defaultEngine : Engine :=
  mkEngine emptyString emptyString 0 0 0 1 0 0 false false 0 0 25 5 true.

Module Options.

Definition Start (start : Z) : EngineOption :=
  fun '(engine, _) => (set_Start engine start, mkControl start).

Definition End (end_ : Z) : EngineOption :=
  fun '(engine, control) => (set_End engine end_, control).

Definition PageSize (pageSize : Z) : EngineOption :=
  fun '(engine, control) => (set_PageSize engine pageSize, control).

Definition MaxFailures (maxFailures : Z) : EngineOption :=
  fun '(engine, control) => (set_MaxFailures engine maxFailures, control).

Definition MaxRecoveries (maxRecoveries : Z) : EngineOption :=
  fun '(engine, control) => (set_MaxRecoveries engine maxRecoveries, control).

Definition Concurrency (maxReplicas replicaRange : Z) : EngineOption :=
  fun '(engine, control) =>
    if (maxReplicas >? 0) && (replicaRange >? 0)
    then (set_Concurrency engine maxReplicas replicaRange, control)
    else (engine, control).

End Options.

Definition NewEngine (options : list EngineOption) (control : ControlConfig)
  : Engine * ControlConfig :=
  fold_left (fun st attr => attr st) options (defaultEngine, control).

(** ** The range allocator *)

(** [setRange]: one replica takes its range from the shared cursor.  The call
    is taken as one atomic step on the cursor. *)
Definition setRange (engine : Engine) (control : ControlConfig)
  : Engine * ControlConfig :=
  let lastRange := LastGoRoutineRange control in
  let engine1 := if lastRange >? -1 then set_Start engine lastRange else engine in
  let engine2 :=
    set_End engine1
      (GoInt.sub (GoInt.add (Start engine1) (ReplicaRange engine1)) 1) in
  (engine2, mkControl (GoInt.add (End engine2) 1)).

(** One allocation as seen from outside: the cursor read, the range returned
    and the cursor left behind. *)
Record Allocation : Type := mkAllocation {
  cursorBefore : Z;
  width : Z;
  rangeStart : Z;
  rangeEnd : Z;
  cursorAfter : Z
}.

(** The replicas are copies of one engine ([spawnEngine] has a value
    receiver); they call [setRange] one after the other.  The width is the
    copy's [ReplicaRange]. *)
Fixpoint allocate (engine : Engine) (widths : list Z) (control : ControlConfig)
  : list Allocation * ControlConfig :=
  match widths with
  | [] => ([], control)
  | w :: rest =>
      let '(replica, control1) := setRange (set_ReplicaRange engine w) control in
      let '(allocations, control2) := allocate engine rest control1 in
      (mkAllocation (LastGoRoutineRange control) w (Start replica) (End replica)
         (LastGoRoutineRange control1) :: allocations, control2)
  end.

(** ** The persistence helper *)

Module Jurisprudence.
Record t : Type := mk {
  Court : string;
  DocumentType : string;
  DocumentID : string
}.
End Jurisprudence.

(** [Persist]: the store's upsert is a parameter returning the error, if any;
    the response channel is the sequence of statuses sent on it so far. *)
Definition Persist (upsert : string -> Jurisprudence.t -> option string)
    (engine : Engine) (jurisprudence : Jurisprudence.t) (channel : list Z)
  : list Z :=
  let uid := (Jurisprudence.Court jurisprudence ++ "-" ++ Base engine ++ "-"
              ++ Jurisprudence.DocumentID jurisprudence)%string in
  let err := upsert uid jurisprudence in
  let channel1 :=
    match err with
    | Some _ => channel ++ [StatusInternalServerError]
    | None => channel
    end in
  channel1 ++ [StatusOK].

(** ** One run attempt *)

(** What happens between [channelControl()] and the return of [Lock.Wait()],
    in the order in which it happens: the listener takes a status from the
    response channel, the listener finds the channel empty and polls the stop
    predicate, the entry point advances the fetch index, the entry point calls
    [Done]. *)
Inductive Event : Type :=
| Status (status : Z)
| Idle
| Fetch (index : Z)
| MarkDone.

(** After the listener has returned nobody receives any more: a further send
    blocks the entry point for good; its writes to the engine still happen. *)
Fixpoint afterStop (engine : Engine) (events : list Event) : option Engine :=
  match events with
  | [] => Some engine
  | Status _ :: _ => None
  | Idle :: rest => afterStop engine rest
  | Fetch index :: rest => afterStop (set_CurrentIndex engine index) rest
  | MarkDone :: rest => afterStop (Done engine) rest
  end.

(** [channelControl]: the listener's loop over the events of the attempt.
    When the entry point has returned and nothing is left to receive, the
    listener keeps polling a state that no longer changes: it returns if the
    stop predicate holds and never otherwise ([None]: [Lock.Wait()] does not
    return). *)
Fixpoint channelControl (engine : Engine) (events : list Event)
  : option Engine :=
  match events with
  | [] => if shouldStop engine then Some engine else None
  | Status status :: rest =>
      channelControl (handleChannelStatus engine status) rest
  | Idle :: rest =>
      if shouldStop engine then afterStop engine rest
      else channelControl engine rest
  | Fetch index :: rest => channelControl (set_CurrentIndex engine index) rest
  | MarkDone :: rest => channelControl (Done engine) rest
  end.

(** Without the default listener the engine's counters are not touched by the
    statuses, and [Lock.Wait()] has nothing to wait for. *)
Fixpoint withoutControl (engine : Engine) (events : list Event) : Engine :=
  match events with
  | [] => engine
  | Status _ :: rest => withoutControl engine rest
  | Idle :: rest => withoutControl engine rest
  | Fetch index :: rest => withoutControl (set_CurrentIndex engine index) rest
  | MarkDone :: rest => withoutControl (Done engine) rest
  end.

(** The entry point, as the events of the attempt it drives from a given
    state of the engine. *)
Definition EntryPoint : Type := Engine -> list Event.

Definition runAttempt (entry : EntryPoint) (engine : Engine) : option Engine :=
  if UseDefaultChannelControl engine
  then channelControl engine (entry engine)
  else Some (withoutControl engine (entry engine)).

(** ** The recovery loop *)

(** How a run ends.  [attempts] are the states of the engine at the successive
    returns of [Lock.Wait()]. *)
Inductive Outcome : Type :=
| Succeeded (engine : Engine) (attempts : list Engine)
| GaveUp (engine : Engine) (attempts : list Engine)
| NotConnected (engine : Engine)
| Stalled (attempts : list Engine)
| OutOfFuel.

(** The [for engine.Recoveries <= engine.MaxRecoveries] loop shared by
    [runAsSequential] and [spawnEngine]; one unit of fuel per test of the loop
    condition. *)
Fixpoint recoveryLoop (fuel : nat) (entry : EntryPoint) (engine : Engine)
    (attempts : list Engine) : Outcome :=
  match fuel with
  | O => OutOfFuel
  | S fuel' =>
      if Recoveries engine <=? MaxRecoveries engine then
        match runAttempt entry engine with
        | None => Stalled attempts
        | Some engine1 =>
            if done engine1 then Succeeded engine1 (attempts ++ [engine1])
            else
              let engine2 := setRecoveryStart engine1 in
              let engine3 := set_Failures engine2 0 in
              let engine4 :=
                set_Recoveries engine3 (GoInt.add (Recoveries engine3) 1) in
              recoveryLoop fuel' entry engine4 (attempts ++ [engine1])
        end
      else GaveUp engine attempts
  end.

(** [runAsSequential]: [connected] is the answer of [ConnectedToIndex()]. *)
Definition runAsSequential (fuel : nat) (connected : bool) (entry : EntryPoint)
    (engine : Engine) : Outcome :=
  if connected then recoveryLoop fuel entry (set_Recoveries engine 0) []
  else NotConnected engine.

(** ** The replica coordinator *)

(** A value sent on one of the two control channels. *)
Inductive Signal : Type :=
| OnActiveEngines (value : Z)
| OnMaxEngines (value : Z).

(** [spawnEngine]: the run of one replica, with the signals it sends to the
    coordinator, in order, and the shared cursor it leaves. *)
Definition spawnEngine (fuel : nat) (connected : bool) (entry : EntryPoint)
    (engine : Engine) (control : ControlConfig)
  : Outcome * list Signal * ControlConfig :=
  if connected then
    let '(engine1, control1) := setRange engine control in
    match recoveryLoop fuel entry engine1 [] with
    | Succeeded e attempts =>
        (Succeeded e attempts, [OnActiveEngines (-1)], control1)
    | GaveUp e attempts =>
        (GaveUp e attempts, [OnMaxEngines (-1); OnActiveEngines (-1)], control1)
    | other => (other, [], control1)
    end
  else (NotConnected engine, [OnActiveEngines (-1)], control).

(** The two counters of [runAsConcurrent]. *)
Record Pool : Type := mkPool { activeEngines : Z; maxEngines : Z }.

(** Which case the [select] of one iteration takes. *)
Inductive Select : Type :=
| FromActiveEngines (value : Z)
| FromMaxEngines (value : Z)
| Default.


(** One iteration of the coordinator's loop. *)
Inductive Iteration : Type :=
| Return
| Continue (pool : Pool) (spawned : bool).

Definition iterate (pool : Pool) (case : Select) : Iteration :=
  if (activeEngines pool =? 0) && (maxEngines pool =? 0) then Return
  else
    match case with
    | FromActiveEngines value =>
        Continue (mkPool (GoInt.add (activeEngines pool) value)
                    (maxEngines pool)) false
    | FromMaxEngines value =>
        Continue (mkPool (activeEngines pool)
                    (GoInt.add (maxEngines pool) value)) false
    | Default =>
        if activeEngines pool <? maxEngines pool
        then Continue (mkPool (GoInt.add (activeEngines pool) 1)
                         (maxEngines pool)) true
        else Continue pool false
    end.

(** [runAsConcurrent] over the cases its successive iterations take: the pool
    reached, the number of replicas spawned, and whether the loop returned. *)
Fixpoint coordinate (pool : Pool) (cases : list Select) (spawned : nat)
  : Pool * nat * bool :=
  match cases with
  | [] =>
      (pool, spawned, (activeEngines pool =? 0) && (maxEngines pool =? 0))
  | case :: rest =>
      match iterate pool case with
      | Return => (pool, spawned, true)
      | Continue pool' true => coordinate pool' rest (S spawned)
      | Continue pool' false => coordinate pool' rest spawned
      end
  end.

Definition runAsConcurrent (engine : Engine) (cases : list Select)
  : Pool * nat * bool :=
  coordinate (mkPool 0 (MaxReplicas engine)) cases O.

(** ** Notions and instances used in the statements *)

(** The listener applied to a sequence of statuses, oldest first. *)
Definition receive (engine : Engine) (statuses : list Z) : Engine :=
  fold_left handleChannelStatus statuses engine.

(** How many statuses of a sequence signal a failure. *)
Definition failureSignals (statuses : list Z) : Z :=
  Z.of_nat (List.length (filter (fun s => negb (s =? StatusOK)) statuses)).

(** [Done] called [n] times in a row. *)
Definition DoneTimes (n : nat) (engine : Engine) : Engine :=
  Nat.iter n Done engine.

(** An engine that failed three times with pages of five. *)
Definition failedEngine (currentIndex start : Z) : Engine :=
  set_Start
    (set_CurrentIndex (set_PageSize (set_Failures defaultEngine 3) 5)
       currentIndex)
    start.

Definition someDocument : Jurisprudence.t :=
  Jurisprudence.mk "STF" "Acordaos" "42".

Definition failingStore : string -> Jurisprudence.t -> option string :=
  fun _ _ => Some "connection refused"%string.

Definition workingStore : string -> Jurisprudence.t -> option string :=
  fun _ _ => None.

(** What the allocation of ranges is to satisfy.  The first allocation starts
    at the cursor, or at the configured start index when the cursor is -1; the
    later ones start at the cursor; each ends at start plus width minus one
    and leaves the cursor one past its end. *)
Definition firstAsSpecified (engine : Engine) (a : Allocation) : Prop :=
  rangeStart a
  = (if cursorBefore a =? -1 then Start engine else cursorBefore a)
  /\ rangeEnd a = rangeStart a + width a - 1
  /\ cursorAfter a = rangeEnd a + 1.

Definition laterAsSpecified (a : Allocation) : Prop :=
  rangeStart a = cursorBefore a
  /\ rangeEnd a = rangeStart a + width a - 1
  /\ cursorAfter a = rangeEnd a + 1.

Definition eachAsSpecified (engine : Engine) (l : list Allocation) : Prop :=
  match l with
  | [] => True
  | a :: rest => firstAsSpecified engine a /\ Forall laterAsSpecified rest
  end.

Definition contiguous (l : list Allocation) : Prop :=
  forall (i : nat) (a b : Allocation),
    nth_error l i = Some a -> nth_error l (S i) = Some b ->
    rangeEnd a + 1 = rangeStart b.

Definition nonOverlapping (l : list Allocation) : Prop :=
  forall (i j : nat) (a b : Allocation),
    i <> j -> nth_error l i = Some a -> nth_error l j = Some b ->
    forall x : Z,
      ~ (rangeStart a <= x <= rangeEnd a /\ rangeStart b <= x <= rangeEnd b).

Definition rangesAsSpecified (engine : Engine) (control : ControlConfig)
    (widths : list Z) : Prop :=
  let allocations := fst (allocate engine widths control) in
  eachAsSpecified engine allocations
  /\ contiguous allocations
  /\ nonOverlapping allocations.

Definition total (widths : list Z) : Z := fold_right Z.add 0 widths.

(** Allocations that follow one another from the index [c] on. *)
Fixpoint chain (c : Z) (l : list Allocation) : Prop :=
  match l with
  | [] => True
  | a :: rest =>
      rangeStart a = c
      /\ rangeEnd a = c + width a - 1
      /\ cursorAfter a = c + width a
      /\ 1 <= width a
      /\ chain (c + width a) rest
  end.

(** An engine built with [Start] and [Concurrency], and the shared cursor the
    construction leaves, from a cursor that was unset. *)
Definition seededEngine (start maxReplicas replicaRange : Z)
  : Engine * ControlConfig :=
  NewEngine [Options.Start start; Options.Concurrency maxReplicas replicaRange]
    (mkControl (-1)).

(** An entry point that only ever signals failure and never marks the engine
    done. *)
Definition failingEvent (ev : Event) : Prop :=
  match ev with
  | Status status => status <> StatusOK
  | MarkDone => False
  | Idle | Fetch _ => True
  end.

Definition alwaysFails (entry : EntryPoint) : Prop :=
  forall e : Engine, Forall failingEvent (entry e).

(** An entry point that does nothing but fail, and fails until the limit is
    reached: in every attempt it sends statuses other than 200, at least
    [limit] of them, each taken by the listener as it is sent, and it may
    advance the fetch index. *)
Definition steadyFailure (ev : Event) : Prop :=
  match ev with
  | Status status => status <> StatusOK
  | Fetch _ => True
  | Idle | MarkDone => False
  end.

Definition statusCount (events : list Event) : Z :=
  Z.of_nat
    (List.length
       (filter (fun ev => match ev with Status _ => true | _ => false end)
          events)).

Definition failsToTheLimit (entry : EntryPoint) (limit : Z) : Prop :=
  forall e : Engine,
    Forall steadyFailure (entry e)
    /\ limit <= statusCount (entry e) <= GoInt.max_int.

(** No attempt of the run waits for ever on its listener. *)
Definition neverStalls (entry : EntryPoint) (e : Engine) : Prop :=
  forall (fuel : nat) (attempts : list Engine),
    runAsSequential fuel true entry e <> Stalled attempts.

(** What an attempt leaves alone. *)
Definition sameBudget (e e' : Engine) : Prop :=
  Recoveries e' = Recoveries e
  /\ MaxRecoveries e' = MaxRecoveries e
  /\ MaxFailures e' = MaxFailures e.

(** The scenario of the specification: start 0, two failures allowed, one
    recovery; the entry point signals two failures in each attempt. *)
Definition scenarioEngine : Engine :=
  fst (NewEngine [Options.Start 0; Options.MaxFailures 2;
                  Options.MaxRecoveries 1] (mkControl (-1))).

Definition failingEntry : EntryPoint :=
  fun _ => [Status 500; Status 500].


(** A concurrent engine of three replicas of width 10, with the limits of the
    scenario above. *)
Definition replicaEngine : Engine * ControlConfig :=
  NewEngine [Options.Start 0; Options.MaxFailures 2; Options.MaxRecoveries 1;
             Options.Concurrency 3 10] (mkControl (-1)).

(** ** The rest of the engine *)

From Stdlib Require Import Ascii.

Definition set_Court (e : Engine) (v : string) : Engine :=
  mkEngine v (Base e) (Failures e) (Start e) (End e) (PageSize e)
    (CurrentIndex e) (Recoveries e) (done e) (IsConcurrent e) (MaxReplicas e)
    (ReplicaRange e) (MaxFailures e) (MaxRecoveries e)
    (UseDefaultChannelControl e).

Definition set_Base (e : Engine) (v : string) : Engine :=
  mkEngine (Court e) v (Failures e) (Start e) (End e) (PageSize e)
    (CurrentIndex e) (Recoveries e) (done e) (IsConcurrent e) (MaxReplicas e)
    (ReplicaRange e) (MaxFailures e) (MaxRecoveries e)
    (UseDefaultChannelControl e).

Definition set_UseDefaultChannelControl (e : Engine) (v : bool) : Engine :=
  mkEngine (Court e) (Base e) (Failures e) (Start e) (End e) (PageSize e)
    (CurrentIndex e) (Recoveries e) (done e) (IsConcurrent e) (MaxReplicas e)
    (ReplicaRange e) (MaxFailures e) (MaxRecoveries e) v.

(** The options that [Options] does not hold. *)
Module OtherOptions.

Definition Court (court : string) : EngineOption :=
  fun '(engine, control) => (set_Court engine court, control).

Definition Base (base : string) : EngineOption :=
  fun '(engine, control) => (set_Base engine base, control).

Definition UseDefaultChannelControl (useDefault : bool) : EngineOption :=
  fun '(engine, control) =>
    (set_UseDefaultChannelControl engine useDefault, control).

(** [Collector], [ElasticClient], [Setup], [EntryPoint], [ResponseChannel]
    and [Lock] assign fields that the record does not carry. *)
Definition Unmodelled : EngineOption := fun st => st.

End OtherOptions.

(** A call of one of the option constructors of [engine.go]. *)
Inductive OptionCall : Type :=
| CallCourt (court : string)
| CallBase (base : string)
| CallStart (start : Z)
| CallEnd (end_ : Z)
| CallPageSize (pageSize : Z)
| CallMaxFailures (maxFailures : Z)
| CallMaxRecoveries (maxRecoveries : Z)
| CallUseDefaultChannelControl (useDefault : bool)
| CallConcurrency (maxReplicas replicaRange : Z)
| CallUnmodelled.

Definition optionOf (call : OptionCall) : EngineOption :=
  match call with
  | CallCourt court => OtherOptions.Court court
  | CallBase base => OtherOptions.Base base
  | CallStart start => Options.Start start
  | CallEnd end_ => Options.End end_
  | CallPageSize pageSize => Options.PageSize pageSize
  | CallMaxFailures maxFailures => Options.MaxFailures maxFailures
  | CallMaxRecoveries maxRecoveries => Options.MaxRecoveries maxRecoveries
  | CallUseDefaultChannelControl useDefault =>
      OtherOptions.UseDefaultChannelControl useDefault
  | CallConcurrency maxReplicas replicaRange =>
      Options.Concurrency maxReplicas replicaRange
  | CallUnmodelled => OtherOptions.Unmodelled
  end.

(** [NewEngine] on a list of such calls. *)
Definition build (calls : list OptionCall) (control : ControlConfig)
  : Engine * ControlConfig :=
  NewEngine (map optionOf calls) control.

Definition isStart (call : OptionCall) : bool :=
  match call with CallStart _ => true | _ => false end.

Definition validConcurrency (call : OptionCall) : bool :=
  match call with
  | CallConcurrency maxReplicas replicaRange =>
      (maxReplicas >? 0) && (replicaRange >? 0)
  | _ => false
  end.

(** [GetDocumentType]: the [switch] on the base, case by case. *)
Definition GetDocumentType (engine : Engine) : string :=
  if String.eqb (Base engine) "baseAcordaos" then "Acórdãos"
  else if String.eqb (Base engine) "baseSumulas" then "Súmulas"
  else if String.eqb (Base engine) "baseSumulasVinculantes"
    then "Súmulas Vinculantes"
  else if String.eqb (Base engine) "basePresidencia"
    then "Decisões da Presidência"
  else if String.eqb (Base engine) "baseRepercussao" then "Repercussão Geral"
  else if String.eqb (Base engine) "basePrecedentes"
    then "Precedentes Normativos"
  else ("CUSTOM[" ++ Base engine ++ "]")%string.

(** The document identifier that [Persist] hands to the store. *)
Definition documentUid (engine : Engine) (jurisprudence : Jurisprudence.t)
  : string :=
  (Jurisprudence.Court jurisprudence ++ "-" ++ Base engine ++ "-"
   ++ Jurisprudence.DocumentID jurisprudence)%string.

(** No character of the string is a hyphen. *)
Fixpoint hyphenFree (s : string) : bool :=
  match s with
  | EmptyString => true
  | String c rest => negb (Ascii.eqb c "-"%char) && hyphenFree rest
  end.

(** ** Further notions used in the statements *)

Definition applyCalls (calls : list OptionCall) (st : Engine * ControlConfig)
  : Engine * ControlConfig :=
  fold_left (fun st attr => attr st) (map optionOf calls) st.

Definition concurrencySettled (e : Engine) : Prop :=
  (IsConcurrent e = true -> 0 < MaxReplicas e /\ 0 < ReplicaRange e)
  /\ (IsConcurrent e = false -> MaxReplicas e = 0 /\ ReplicaRange e = 0).

Definition startSeeded (st : Engine * ControlConfig) : Prop :=
  LastGoRoutineRange (snd st) = Start (fst st).

(** The documents persisted one after the other on one response channel. *)
Definition persistAll (upsert : string -> Jurisprudence.t -> option string)
    (engine : Engine) (documents : list Jurisprudence.t) (channel : list Z)
  : list Z :=
  fold_left (fun ch j => Persist upsert engine j ch) documents channel.

Definition statusesOf (upsert : string -> Jurisprudence.t -> option string)
    (engine : Engine) (j : Jurisprudence.t) : list Z :=
  match upsert (documentUid engine j) j with
  | Some _ => [500; 200]
  | None => [200]
  end.

Definition notDone (e : Engine) : Prop := done e = false.

(** What a finished loop tells, from the state it was entered in and the
    attempts [acc] made before. *)
Definition loopOutcome (e : Engine) (acc : list Engine) (o : Outcome) : Prop :=
  match o with
  | Succeeded e' attempts =>
      exists failed : list Engine,
        attempts = acc ++ failed ++ [e']
        /\ Forall notDone failed
        /\ done e' = true
        /\ Recoveries e' = Recoveries e + Z.of_nat (List.length failed)
        /\ Recoveries e' <= MaxRecoveries e
  | GaveUp e' attempts =>
      exists failed : list Engine,
        attempts = acc ++ failed
        /\ Forall notDone failed
        /\ Recoveries e' = Recoveries e + Z.of_nat (List.length failed)
        /\ MaxRecoveries e < Recoveries e'
        /\ (failed <> [] -> Recoveries e' = MaxRecoveries e + 1)
  | Stalled attempts =>
      exists failed : list Engine,
        attempts = acc ++ failed
        /\ Forall notDone failed
        /\ Recoveries e + Z.of_nat (List.length failed) <= MaxRecoveries e
  | NotConnected _ => False
  | OutOfFuel => True
  end.

(** A sequential engine under the default listener. *)
Definition sequentialMode (e : Engine) : Prop :=
  IsConcurrent e = false /\ UseDefaultChannelControl e = true.

(** The failure limit is reached, or the done mark is set. *)
Definition spent (e : Engine) : Prop :=
  done e = true \/ MaxFailures e <= Failures e.

Definition attemptsOf (o : Outcome) : list Engine :=
  match o with
  | Succeeded _ attempts | GaveUp _ attempts | Stalled attempts => attempts
  | NotConnected _ | OutOfFuel => []
  end.

(** What the coordinator meets in one iteration: nothing to receive; the
    signal of a replica that ended by success or for want of a connection;
    the first signal of a replica that gave up, on the capacity channel; its
    second signal, on the activity channel. *)
Inductive Meeting : Type :=
| Poll
| Ended
| GaveUpFirst
| GaveUpSecond.

Definition caseOf (m : Meeting) : Select :=
  match m with
  | Poll => Default
  | Ended => FromActiveEngines (-1)
  | GaveUpFirst => FromMaxEngines (-1)
  | GaveUpSecond => FromActiveEngines (-1)
  end.

(** The counters of the coordinator beside the replicas there are: those that
    run, those that gave up and have their second signal still to send, and
    how many gave up so far. *)
Record Supervision : Type := mkSupervision {
  counters : Pool;
  running : nat;
  leaving : nat;
  exhausted : nat
}.

(** One iteration; [None] when the loop has returned or no replica is there
    to send the signal. *)
Definition superviseStep (s : Supervision) (m : Meeting) : option Supervision :=
  match iterate (counters s) (caseOf m) with
  | Return => None
  | Continue pool' spawned =>
      match m with
      | Poll =>
          Some (mkSupervision pool'
                  (if spawned then S (running s) else running s)
                  (leaving s) (exhausted s))
      | Ended =>
          match running s with
          | O => None
          | S r => Some (mkSupervision pool' r (leaving s) (exhausted s))
          end
      | GaveUpFirst =>
          match running s with
          | O => None
          | S r =>
              Some (mkSupervision pool' r (S (leaving s)) (S (exhausted s)))
          end
      | GaveUpSecond =>
          match leaving s with
          | O => None
          | S l => Some (mkSupervision pool' (running s) l (exhausted s))
          end
      end
  end.

Fixpoint supervise (s : Supervision) (meetings : list Meeting)
  : option Supervision :=
  match meetings with
  | [] => Some s
  | m :: rest =>
      match superviseStep s m with
      | None => None
      | Some s' => supervise s' rest
      end
  end.

Definition supervisionStart (engine : Engine) : Supervision :=
  mkSupervision (mkPool 0 (MaxReplicas engine)) O O O.

Definition supervised (capacity : Z) (s : Supervision) : Prop :=
  activeEngines (counters s) = Z.of_nat (running s) + Z.of_nat (leaving s)
  /\ Z.of_nat (running s) <= maxEngines (counters s)
  /\ maxEngines (counters s) = capacity - Z.of_nat (exhausted s)
  /\ (leaving s <= exhausted s)%nat.

(** An entry point that fails twice, the listener polling in between. *)
Definition pollingEntry : EntryPoint :=
  fun _ => [Status 500; Idle; Status 500].

(** An entry point that goes on failing: a third failure is signalled after
    the listener has polled. *)
Definition persistentEntry : EntryPoint :=
  fun _ => [Status 500; Status 500; Idle; Status 500].

(** * Properties *)

(** ** Arithmetic of the 64-bit reduction *)

Lemma wrap_id z : GoInt.in_int z -> GoInt.wrap z = z.
Proof.
  unfold GoInt.in_int, GoInt.min_int, GoInt.max_int, GoInt.wrap; intros H.
  rewrite Z.mod_small; lia.
Qed.

Lemma wrap_range z : GoInt.in_int (GoInt.wrap z).
Proof.
  unfold GoInt.in_int, GoInt.min_int, GoInt.max_int, GoInt.wrap.
  pose proof (Z.mod_pos_bound (z + 2 ^ 63) (2 ^ 64) ltac:(lia)); lia.
Qed.

Lemma wrap_congr a b : (a - b) mod 2 ^ 64 = 0 -> GoInt.wrap a = GoInt.wrap b.
Proof.
  unfold GoInt.wrap; intros H.
  apply Z.mod_divide in H; [|lia].
  destruct H as [k Hk].
  replace (a + 2 ^ 63) with (b + 2 ^ 63 + k * 2 ^ 64) by lia.
  now rewrite Z.mod_add by lia.
Qed.

(** Reducing an operand first does not change the reduced result. *)
Lemma wrap_sub_r a b : GoInt.wrap (a - GoInt.wrap b) = GoInt.wrap (a - b).
Proof.
  apply wrap_congr. unfold GoInt.wrap at 1.
  replace (a - ((b + 2 ^ 63) mod 2 ^ 64 - 2 ^ 63) - (a - b))
    with (b + 2 ^ 63 - (b + 2 ^ 63) mod 2 ^ 64) by lia.
  rewrite (Z.div_mod (b + 2 ^ 63) (2 ^ 64)) at 1 by lia.
  replace (2 ^ 64 * ((b + 2 ^ 63) / 2 ^ 64) + (b + 2 ^ 63) mod 2 ^ 64
           - (b + 2 ^ 63) mod 2 ^ 64)
    with (((b + 2 ^ 63) / 2 ^ 64) * 2 ^ 64) by lia.
  apply Z.mod_mul; lia.
Qed.

(** ** The stop predicate *)

Lemma shouldStop_true_iff (e : Engine) :
  shouldStop e = true <->
  MaxFailures e <= Failures e
  \/ (IsConcurrent e = true /\ End e < CurrentIndex e)
  \/ done e = true.
Proof.
  unfold shouldStop.
  destruct (Z.geb_spec (Failures e) (MaxFailures e)) as [Hf|Hf].
  - split; [intros _; left; lia | reflexivity].
  - destruct (IsConcurrent e) eqn:Hc; simpl.
    + destruct (Z.gtb_spec (CurrentIndex e) (End e)) as [Hi|Hi].
      * split; [intros _; right; left; split; [reflexivity | lia] | reflexivity].
      * destruct (done e); split; intros H; try reflexivity; try discriminate.
        -- right; right; reflexivity.
        -- destruct H as [H|[[_ H]|H]]; try lia; discriminate.
    + destruct (done e); split; intros H; try reflexivity; try discriminate.
      * right; right; reflexivity.
      * destruct H as [H|[[H _]|H]]; try lia; discriminate.
Qed.

(** C1. For every engine, [shouldStop] answers true exactly when the failure
    count has reached the maximum, or the engine is concurrent and the current
    index is past the end index, or the done flag is set.  Failures equal to
    the maximum stop the engine; failures one below the maximum, with neither
    of the other two conditions, do not. *)
Theorem shouldStop_three_disjuncts (e : Engine) :
  (shouldStop e = true <->
     MaxFailures e <= Failures e
     \/ (IsConcurrent e = true /\ End e < CurrentIndex e)
     \/ done e = true)
  /\ (Failures e = MaxFailures e -> shouldStop e = true)
  /\ (Failures e = MaxFailures e - 1 ->
      IsConcurrent e = false \/ CurrentIndex e <= End e ->
      done e = false ->
      shouldStop e = false).
Proof.
  split; [apply shouldStop_true_iff|]. split.
  - intros H. apply shouldStop_true_iff. left. lia.
  - intros Hf Hb Hd.
    destruct (shouldStop e) eqn:Hs; [|reflexivity].
    apply shouldStop_true_iff in Hs.
    destruct Hs as [H|[[Hc Hi]|H]].
    + lia.
    + destruct Hb as [Hb|Hb]; [congruence | lia].
    + congruence.
Qed.

(** The boundary values of C1 on the default engine, whose maximum is 25. *)
Lemma shouldStop_three_disjuncts_witness :
  shouldStop (set_Failures defaultEngine 25) = true
  /\ shouldStop (set_Failures defaultEngine 24) = false.
Proof.
  split.
  - apply (shouldStop_three_disjuncts (set_Failures defaultEngine 25)).
    reflexivity.
  - apply (shouldStop_three_disjuncts (set_Failures defaultEngine 24)).
    + reflexivity.
    + left; reflexivity.
    + reflexivity.
Defined.

(** C9. A sequential engine below its failure limit and not done is never
    stopped, wherever the current index stands with respect to the end
    index. *)
Theorem shouldStop_sequential_unbounded (e : Engine) :
  IsConcurrent e = false ->
  Failures e < MaxFailures e ->
  done e = false ->
  shouldStop e = false
  /\ forall index end_ : Z,
       shouldStop (set_End (set_CurrentIndex e index) end_) = false.
Proof.
  intros Hc Hf Hd.
  assert (G : forall e', IsConcurrent e' = false ->
                         Failures e' < MaxFailures e' ->
                         done e' = false -> shouldStop e' = false).
  { intros e' Hc' Hf' Hd'. unfold shouldStop.
    destruct (Z.geb_spec (Failures e') (MaxFailures e')); [lia|].
    rewrite Hc', Hd'. reflexivity. }
  split; [now apply G|].
  intros index end_. apply G; assumption.
Qed.

Lemma shouldStop_sequential_unbounded_witness :
  shouldStop (set_End (set_CurrentIndex defaultEngine 1000) 10) = false.
Proof.
  apply (shouldStop_sequential_unbounded defaultEngine); [reflexivity | | reflexivity].
  simpl. lia.
Defined.

(** ** The done mark *)

Lemma Done_twice (e : Engine) : Done (Done e) = Done e.
Proof. reflexivity. Qed.

Lemma DoneTimes_succ (n : nat) (e : Engine) : DoneTimes (S n) e = Done e.
Proof.
  induction n as [|n IH]; [reflexivity|].
  change (DoneTimes (S (S n)) e) with (Done (DoneTimes (S n) e)).
  rewrite IH. apply Done_twice.
Qed.

(** C8. After one or more calls of [Done] the stop predicate holds, the
    failure and recovery counters are those of the start, and the state is
    the one a single call leaves: a further call changes nothing. *)
Theorem Done_idempotent (n : nat) (e : Engine) :
  (1 <= n)%nat ->
  shouldStop (DoneTimes n e) = true
  /\ Failures (DoneTimes n e) = Failures e
  /\ Recoveries (DoneTimes n e) = Recoveries e
  /\ DoneTimes n e = Done e
  /\ Done (DoneTimes n e) = DoneTimes n e.
Proof.
  intros Hn. destruct n as [|n]; [lia|].
  rewrite DoneTimes_succ.
  repeat split.
  apply shouldStop_true_iff. right; right; reflexivity.
Qed.

Lemma Done_idempotent_witness :
  shouldStop (DoneTimes 3 defaultEngine) = true
  /\ Failures (DoneTimes 3 defaultEngine) = Failures defaultEngine
  /\ Recoveries (DoneTimes 3 defaultEngine) = Recoveries defaultEngine
  /\ DoneTimes 3 defaultEngine = Done defaultEngine
  /\ Done (DoneTimes 3 defaultEngine) = DoneTimes 3 defaultEngine.
Proof. apply (Done_idempotent 3 defaultEngine). lia. Defined.

(** ** The recovery rewind *)

(** C10. With the current index at 0 the recovery start leaves the engine as
    it is, the start index included. *)
Theorem setRecoveryStart_at_index_zero (e : Engine) :
  CurrentIndex e = 0 ->
  setRecoveryStart e = e /\ Start (setRecoveryStart e) = Start e.
Proof.
  intros H. unfold setRecoveryStart. rewrite H. simpl. split; reflexivity.
Qed.

Lemma setRecoveryStart_at_index_zero_witness :
  setRecoveryStart (failedEngine 0 7) = failedEngine 0 7
  /\ Start (setRecoveryStart (failedEngine 0 7)) = Start (failedEngine 0 7).
Proof. apply (setRecoveryStart_at_index_zero (failedEngine 0 7)). reflexivity. Defined.

(** C4, as the claim states it, at an engine whose current index is 0: the
    start index stays 7 and is not 0 - 3 * 5. *)
Lemma setRecoveryStart_not_rewound_at_zero :
  ~ (Start (setRecoveryStart (failedEngine 0 7))
     = CurrentIndex (failedEngine 0 7)
       - Failures (failedEngine 0 7) * PageSize (failedEngine 0 7)).
Proof. vm_compute. discriminate. Qed.

(** C4, amended. With a current index other than 0, the recovery start sets
    the start index to the current index minus failures times page size,
    whenever that number is an [int]; nothing is clamped, the result may be
    negative, and no other field changes.  With current index 100, three
    failures and pages of five the start index becomes 85. *)
Theorem setRecoveryStart_rewinds (e : Engine) :
  CurrentIndex e <> 0 ->
  GoInt.in_int (CurrentIndex e - Failures e * PageSize e) ->
  setRecoveryStart e
  = set_Start e (CurrentIndex e - Failures e * PageSize e).
Proof.
  intros Hne Hin. unfold setRecoveryStart.
  destruct (Z.eqb_spec (CurrentIndex e) 0) as [H0|_]; [contradiction|]. simpl.
  f_equal. unfold GoInt.sub, GoInt.mul.
  rewrite wrap_sub_r. apply wrap_id. exact Hin.
Qed.

Lemma setRecoveryStart_rewinds_witness :
  Start (setRecoveryStart (failedEngine 100 0)) = 85
  /\ Start (setRecoveryStart (failedEngine 1 0)) = -14.
Proof.
  split.
  - rewrite (setRecoveryStart_rewinds (failedEngine 100 0)).
    + reflexivity.
    + simpl. lia.
    + vm_compute. split; discriminate.
  - rewrite (setRecoveryStart_rewinds (failedEngine 1 0)).
    + reflexivity.
    + simpl. lia.
    + vm_compute. split; discriminate.
Defined.

(** ** The persistence helper *)

Lemma Persist_success (upsert : string -> Jurisprudence.t -> option string)
    (e : Engine) (j : Jurisprudence.t) (channel : list Z) :
  (forall uid, upsert uid j = None) ->
  Persist upsert e j channel = channel ++ [200].
Proof. intros H. unfold Persist. rewrite H. reflexivity. Qed.

(** C3. On a failed upsert [Persist] sends two statuses, 500 and then 200:
    the branch of the error does not return.  The listener counts the first
    as a failure and takes it back at the second. *)
Theorem Persist_failure_sends_two :
  Persist failingStore defaultEngine someDocument [] = [500; 200]
  /\ Persist workingStore defaultEngine someDocument [] = [200]
  /\ Failures
       (receive defaultEngine
          (Persist failingStore defaultEngine someDocument []))
     = Failures defaultEngine.
Proof. vm_compute. repeat split. Qed.

(** ** The failure counter *)

Lemma handleChannelStatus_failure (e : Engine) (status : Z) :
  status <> StatusOK ->
  handleChannelStatus e status = set_Failures e (GoInt.add (Failures e) 1).
Proof.
  intros H. unfold handleChannelStatus.
  destruct (Z.eqb_spec status StatusOK); [contradiction | reflexivity].
Qed.

Lemma handleChannelStatus_success (e : Engine) :
  handleChannelStatus e StatusOK
  = if Failures e >? 0 then set_Failures e (GoInt.sub (Failures e) 1) else e.
Proof. reflexivity. Qed.

Lemma failureSignals_cons (s : Z) (l : list Z) :
  failureSignals (s :: l)
  = (if s =? StatusOK then 0 else 1) + failureSignals l.
Proof.
  unfold failureSignals. cbn [filter].
  destruct (s =? StatusOK); cbn [negb]; [lia|].
  change (Datatypes.length (s :: ?t)) with (S (Datatypes.length t)).
  rewrite Nat2Z.inj_succ. lia.
Qed.

Lemma failureSignals_nonneg (l : list Z) : 0 <= failureSignals l.
Proof. unfold failureSignals. lia. Qed.

Lemma failureSignals_app (l1 l2 : list Z) :
  failureSignals (l1 ++ l2) = failureSignals l1 + failureSignals l2.
Proof.
  unfold failureSignals. rewrite filter_app, length_app. lia.
Qed.

(** The counter stays between 0 and its start plus the failures received, as
    long as that sum is an [int]. *)
Lemma receive_bounds (l : list Z) :
  forall e : Engine,
    0 <= Failures e ->
    Failures e + failureSignals l <= GoInt.max_int ->
    0 <= Failures (receive e l) <= Failures e + failureSignals l.
Proof.
  induction l as [|s l IH]; intros e H0 Hmax.
  - change (failureSignals []) with 0 in *. unfold receive; simpl. lia.
  - rewrite failureSignals_cons in Hmax |- *.
    pose proof (failureSignals_nonneg l) as Hl.
    change (receive e (s :: l)) with (receive (handleChannelStatus e s) l).
    destruct (Z.eq_dec s StatusOK) as [Heq|Hs].
    + subst s. rewrite Z.eqb_refl in *. rewrite handleChannelStatus_success.
      destruct (Z.gtb_spec (Failures e) 0) as [Hp|Hp].
      * assert (E : GoInt.sub (Failures e) 1 = Failures e - 1).
        { apply wrap_id.
          unfold GoInt.in_int, GoInt.min_int, GoInt.max_int in *. lia. }
        specialize (IH (set_Failures e (GoInt.sub (Failures e) 1))).
        cbn [Failures set_Failures] in IH. rewrite E in IH |- *.
        specialize (IH ltac:(lia) ltac:(lia)). lia.
      * specialize (IH e H0 ltac:(lia)). lia.
    + rewrite (proj2 (Z.eqb_neq _ _) Hs) in *.
      rewrite handleChannelStatus_failure by assumption.
      assert (E : GoInt.add (Failures e) 1 = Failures e + 1).
      { apply wrap_id.
        unfold GoInt.in_int, GoInt.min_int, GoInt.max_int in *. lia. }
      specialize (IH (set_Failures e (GoInt.add (Failures e) 1))).
      cbn [Failures set_Failures] in IH. rewrite E in IH |- *.
      specialize (IH ltac:(lia) ltac:(lia)). lia.
Qed.

(** C5. Starting from no failure, along any sequence of statuses whose
    failures can be counted in an [int]: a status other than 200 raises the
    counter by one, a 200 lowers it by one when it is positive and leaves it
    otherwise, and after every prefix the counter is at least 0 and at most
    the number of failure statuses of that prefix. *)
Theorem failures_within_signals (e : Engine) (statuses : list Z) :
  Failures e = 0 ->
  failureSignals statuses <= GoInt.max_int ->
  forall (before : list Z) (status : Z) (after : list Z),
    statuses = before ++ status :: after ->
    let e1 := receive e before in
    let e2 := handleChannelStatus e1 status in
    (status <> StatusOK -> Failures e2 = Failures e1 + 1)
    /\ (status = StatusOK -> 0 < Failures e1 -> Failures e2 = Failures e1 - 1)
    /\ (status = StatusOK -> Failures e1 <= 0 -> Failures e2 = Failures e1)
    /\ 0 <= Failures e1 <= failureSignals before
    /\ 0 <= Failures e2 <= failureSignals (before ++ [status])
    /\ e2 = receive e (before ++ [status]).
Proof.
  intros H0 Hmax before status after Hsplit e1 e2.
  subst statuses.
  rewrite failureSignals_app, failureSignals_cons in Hmax.
  pose proof (failureSignals_nonneg before) as Hb.
  pose proof (failureSignals_nonneg after) as Ha.
  assert (B1 : 0 <= Failures e1 <= failureSignals before).
  { pose proof (receive_bounds before e) as R. rewrite H0 in R.
    unfold e1. destruct (status =? StatusOK); lia. }
  assert (E2 : e2 = receive e (before ++ [status])).
  { unfold e2, e1, receive. rewrite fold_left_app. reflexivity. }
  assert (B2 : 0 <= Failures e2 <= failureSignals (before ++ [status])).
  { rewrite E2. pose proof (receive_bounds (before ++ [status]) e) as R.
    rewrite H0 in R. rewrite failureSignals_app, failureSignals_cons in R |- *.
    change (failureSignals []) with 0 in *.
    destruct (status =? StatusOK); lia. }
  repeat split; try lia; try assumption.
  - intros Hs. unfold e2. rewrite handleChannelStatus_failure by assumption.
    cbn [Failures set_Failures]. apply wrap_id.
    rewrite (proj2 (Z.eqb_neq _ _) Hs) in Hmax.
    unfold GoInt.in_int, GoInt.min_int, GoInt.max_int in *. lia.
  - intros -> Hp. unfold e2. rewrite handleChannelStatus_success.
    destruct (Z.gtb_spec (Failures e1) 0); [|lia].
    cbn [Failures set_Failures]. apply wrap_id.
    rewrite Z.eqb_refl in Hmax.
    unfold GoInt.in_int, GoInt.min_int, GoInt.max_int in *. lia.
  - intros -> Hp. unfold e2. rewrite handleChannelStatus_success.
    destruct (Z.gtb_spec (Failures e1) 0); [lia | reflexivity].
Qed.

Lemma failures_within_signals_witness :
  let e1 := receive defaultEngine [500; 200; 200; 404] in
  let e2 := handleChannelStatus e1 500 in
  (500 <> StatusOK -> Failures e2 = Failures e1 + 1)
  /\ (500 = StatusOK -> 0 < Failures e1 -> Failures e2 = Failures e1 - 1)
  /\ (500 = StatusOK -> Failures e1 <= 0 -> Failures e2 = Failures e1)
  /\ 0 <= Failures e1 <= failureSignals [500; 200; 200; 404]
  /\ 0 <= Failures e2 <= failureSignals ([500; 200; 200; 404] ++ [500])
  /\ e2 = receive defaultEngine ([500; 200; 200; 404] ++ [500]).
Proof.
  apply (failures_within_signals defaultEngine [500; 200; 200; 404; 500; 200]
           eq_refl ltac:(vm_compute; discriminate)
           [500; 200; 200; 404] 500 [200] eq_refl).
Defined.

(** ** The range allocator *)

Lemma setRange_from_cursor (e : Engine) (w c : Z) :
  0 <= c -> 1 <= w -> c + w <= GoInt.max_int ->
  setRange (set_ReplicaRange e w) (mkControl c)
  = (set_End (set_Start (set_ReplicaRange e w) c) (c + w - 1),
     mkControl (c + w)).
Proof.
  intros Hc Hw Hmax. unfold setRange.
  cbn [LastGoRoutineRange].
  destruct (Z.gtb_spec c (-1)) as [_|H]; [|lia].
  cbn [Start ReplicaRange set_Start set_ReplicaRange set_End End].
  unfold GoInt.add, GoInt.sub.
  assert (I : forall z, 0 <= z <= GoInt.max_int -> GoInt.wrap z = z).
  { intros z Hz. apply wrap_id.
    unfold GoInt.in_int, GoInt.min_int, GoInt.max_int in *. lia. }
  rewrite (I (c + w)) by lia.
  rewrite (I (c + w - 1)) by lia.
  replace (c + w - 1 + 1) with (c + w) by lia.
  rewrite (I (c + w)) by lia.
  reflexivity.
Qed.

Lemma setRange_unset_cursor (e : Engine) (w c : Z) :
  c <= -1 -> 0 <= Start e -> 1 <= w -> Start e + w <= GoInt.max_int ->
  setRange (set_ReplicaRange e w) (mkControl c)
  = (set_End (set_ReplicaRange e w) (Start e + w - 1),
     mkControl (Start e + w)).
Proof.
  intros Hc Hs Hw Hmax. unfold setRange.
  cbn [LastGoRoutineRange].
  destruct (Z.gtb_spec c (-1)) as [H|_]; [lia|].
  cbn [Start ReplicaRange set_Start set_ReplicaRange set_End End].
  unfold GoInt.add, GoInt.sub.
  assert (I : forall z, 0 <= z <= GoInt.max_int -> GoInt.wrap z = z).
  { intros z Hz. apply wrap_id.
    unfold GoInt.in_int, GoInt.min_int, GoInt.max_int in *. lia. }
  rewrite (I (Start e + w)) by lia.
  rewrite (I (Start e + w - 1)) by lia.
  replace (Start e + w - 1 + 1) with (Start e + w) by lia.
  rewrite (I (Start e + w)) by lia.
  reflexivity.
Qed.

Lemma total_nonneg (widths : list Z) :
  Forall (fun w => 1 <= w) widths -> 0 <= total widths.
Proof.
  induction 1 as [|w l Hw _ IH]; unfold total in *; simpl; lia.
Qed.

Lemma allocate_chain (e : Engine) (widths : list Z) :
  forall c : Z,
    0 <= c ->
    Forall (fun w => 1 <= w) widths ->
    c + total widths <= GoInt.max_int ->
    chain c (fst (allocate e widths (mkControl c)))
    /\ Forall laterAsSpecified (fst (allocate e widths (mkControl c)))
    /\ snd (allocate e widths (mkControl c)) = mkControl (c + total widths).
Proof.
  induction widths as [|w l IH]; intros c Hc Hall Hmax.
  - simpl. repeat split; [constructor | f_equal; unfold total; simpl; lia].
  - inversion Hall as [|w' l' Hw Hl]; subst.
    pose proof (total_nonneg l Hl) as Hnn.
    change (total (w :: l)) with (w + total l) in *.
    cbn [allocate].
    rewrite (setRange_from_cursor e w c) by lia.
    destruct (IH (c + w) ltac:(lia) Hl ltac:(lia)) as (Hch & Hlater & Hsnd).
    destruct (allocate e l (mkControl (c + w))) as [allocations control2].
    cbn [fst snd LastGoRoutineRange Start End set_Start set_End] in *.
    repeat split; cbn [rangeStart rangeEnd cursorAfter cursorBefore width];
      try lia; try assumption.
    + constructor; [|assumption].
      unfold laterAsSpecified; cbn; lia.
    + rewrite Hsnd. f_equal. lia.
Qed.

Lemma chain_nth (l : list Allocation) :
  forall (c : Z) (i : nat) (a : Allocation),
    chain c l -> nth_error l i = Some a ->
    c <= rangeStart a /\ rangeStart a <= rangeEnd a.
Proof.
  induction l as [|h t IH]; intros c i a Hch Hi.
  - destruct i; discriminate.
  - destruct Hch as (Hs & He & _ & Hw & Ht).
    destruct i as [|i]; simpl in Hi.
    + injection Hi as <-. lia.
    + destruct (IH _ _ _ Ht Hi). lia.
Qed.

Lemma chain_contiguous (l : list Allocation) :
  forall c : Z, chain c l -> contiguous l.
Proof.
  induction l as [|h t IH]; intros c Hch i a b Ha Hb.
  - destruct i; discriminate.
  - destruct Hch as (Hs & He & _ & Hw & Ht).
    destruct i as [|i]; simpl in Ha, Hb.
    + injection Ha as <-.
      destruct t as [|h2 t2]; [discriminate|].
      simpl in Hb. injection Hb as <-.
      destruct Ht as (Hs2 & _). lia.
    + exact (IH _ Ht i a b Ha Hb).
Qed.

Lemma chain_ordered (l : list Allocation) :
  forall (c : Z) (i j : nat) (a b : Allocation),
    chain c l -> (i < j)%nat ->
    nth_error l i = Some a -> nth_error l j = Some b ->
    rangeEnd a < rangeStart b.
Proof.
  induction l as [|h t IH]; intros c i j a b Hch Hij Ha Hb.
  - destruct i; discriminate.
  - destruct Hch as (Hs & He & _ & Hw & Ht).
    destruct j as [|j]; [lia|]. simpl in Hb.
    destruct i as [|i]; simpl in Ha.
    + injection Ha as <-.
      destruct (chain_nth _ _ _ _ Ht Hb). lia.
    + apply (IH _ i j a b Ht); [lia | assumption | assumption].
Qed.

Lemma chain_nonOverlapping (l : list Allocation) (c : Z) :
  chain c l -> nonOverlapping l.
Proof.
  intros Hch i j a b Hij Ha Hb x [Hxa Hxb].
  destruct (Nat.lt_total i j) as [Hlt|[Heq|Hgt]].
  - pose proof (chain_ordered l c i j a b Hch Hlt Ha Hb). lia.
  - contradiction.
  - pose proof (chain_ordered l c j i b a Hch Hgt Hb Ha). lia.
Qed.

(** C2, as the claim states it, at a cursor seeded with the start index -5 and
    two allocations of width 2: both replicas are given the range from -5 to
    -4.  The second does not start at the cursor, which stands at -3. *)
Lemma allocate_negative_seed_overlaps :
  let '(engine, control) := seededEngine (-5) 2 2 in
  LastGoRoutineRange control = -5
  /\ map (fun a => (rangeStart a, rangeEnd a))
       (fst (allocate engine [2; 2] control))
     = [(-5, -4); (-5, -4)]
  /\ ~ rangesAsSpecified engine control [2; 2].
Proof.
  cbv zeta. unfold seededEngine.
  split; [reflexivity|]. split; [vm_compute; reflexivity|].
  intros (_ & Hcontig & _).
  specialize (Hcontig 0%nat _ _ eq_refl eq_refl).
  vm_compute in Hcontig. discriminate.
Qed.

(** C2, amended. From a cursor seeded with the start index of the engine, or
    unset at -1, with a start index that is not negative, widths of at least
    one and a last index that is an [int]: the first allocation starts at the
    cursor (at the configured start index when the cursor is -1), each later
    one starts at the cursor, each ends at its start plus its width minus one
    and moves the cursor one past its end; the ranges are contiguous and no
    index belongs to two of them. *)
Theorem allocate_contiguous_ranges (engine : Engine) (control : ControlConfig)
    (widths : list Z) :
  LastGoRoutineRange control = Start engine
  \/ LastGoRoutineRange control = -1 ->
  0 <= Start engine ->
  Forall (fun w => 1 <= w) widths ->
  Start engine + total widths <= GoInt.max_int ->
  rangesAsSpecified engine control widths
  /\ (widths <> [] ->
      LastGoRoutineRange (snd (allocate engine widths control))
      = Start engine + total widths).
Proof.
  intros Hseed Hstart Hall Hmax.
  destruct control as [c]. cbn [LastGoRoutineRange] in Hseed.
  unfold rangesAsSpecified.
  destruct widths as [|w l].
  - simpl. repeat split; try (intros H; contradiction).
    + intros i a b Ha; destruct i; discriminate.
    + intros i j a b _ Ha; destruct i; discriminate.
  - inversion Hall as [|w' l' Hw Hl]; subst w' l'.
    pose proof (total_nonneg l Hl) as Hnn.
    change (total (w :: l)) with (w + total l) in *.
    assert (Hfirst :
      setRange (set_ReplicaRange engine w) (mkControl c)
      = (set_End (set_Start (set_ReplicaRange engine w) (Start engine))
           (Start engine + w - 1),
         mkControl (Start engine + w))).
    { destruct Hseed as [->| ->].
      - apply setRange_from_cursor; lia.
      - rewrite setRange_unset_cursor by lia.
        destruct engine; reflexivity. }
    cbn [allocate]. rewrite Hfirst.
    destruct (allocate_chain engine l (Start engine + w)
                ltac:(lia) Hl ltac:(lia)) as (Hch & Hlater & Hsnd).
    destruct (allocate engine l (mkControl (Start engine + w)))
      as [allocations control2].
    cbn [fst snd LastGoRoutineRange Start End set_Start set_End] in *.
    set (first := mkAllocation c w (Start engine) (Start engine + w - 1)
                    (Start engine + w)).
    assert (Hchain : chain (Start engine) (first :: allocations)).
    { cbn. repeat split; try lia. exact Hch. }
    split; [split; [|split]|].
    + split; [|exact Hlater].
      unfold firstAsSpecified, first.
      cbn [rangeStart rangeEnd cursorAfter cursorBefore width].
      split; [|lia].
      destruct Hseed as [->| ->]; [|reflexivity].
      destruct (Z.eqb_spec (Start engine) (-1)); [lia | reflexivity].
    + exact (chain_contiguous _ _ Hchain).
    + exact (chain_nonOverlapping _ _ Hchain).
    + intros _. rewrite Hsnd. cbn [LastGoRoutineRange]. lia.
Qed.

(** Three replicas of width 10 from the start index 0. *)
Lemma allocate_contiguous_ranges_witness :
  let '(engine, control) := seededEngine 0 3 10 in
  rangesAsSpecified engine control [10; 10; 10]
  /\ map (fun a => (rangeStart a, rangeEnd a))
       (fst (allocate engine [10; 10; 10] control))
     = [(0, 9); (10, 19); (20, 29)].
Proof.
  cbv zeta. unfold seededEngine. cbn [NewEngine fold_left].
  split; [|vm_compute; reflexivity].
  apply (allocate_contiguous_ranges
           (fst (Options.Concurrency 3 10
                   (Options.Start 0 (defaultEngine, mkControl (-1)))))
           (snd (Options.Concurrency 3 10
                   (Options.Start 0 (defaultEngine, mkControl (-1)))))
           [10; 10; 10]).
  - left; reflexivity.
  - cbn. lia.
  - repeat constructor; lia.
  - vm_compute. discriminate.
Defined.

(** The scenario of the specification, with the cursor left unset: three
    replicas of width 10 from the default start index 0. *)
Example allocate_from_unset_cursor :
  let '(engine, control) :=
    NewEngine [Options.Concurrency 3 10] (mkControl (-1)) in
  map (fun a => (cursorBefore a, rangeStart a, rangeEnd a, cursorAfter a))
    (fst (allocate engine (repeat (ReplicaRange engine) 3) control))
  = [(-1, 0, 9, 10); (10, 10, 19, 20); (20, 20, 29, 30)].
Proof. vm_compute. reflexivity. Qed.

(** ** The sequential recovery loop *)

Lemma handleChannelStatus_frame (e : Engine) (status : Z) :
  sameBudget e (handleChannelStatus e status)
  /\ done (handleChannelStatus e status) = done e.
Proof.
  unfold handleChannelStatus, sameBudget.
  destruct (negb (status =? StatusOK)); [repeat split|].
  destruct (Failures e >? 0); repeat split.
Qed.

Lemma afterStop_frame (events : list Event) :
  forall e e' : Engine,
    afterStop e events = Some e' ->
    sameBudget e e' /\ (Forall failingEvent events -> done e' = done e).
Proof.
  induction events as [|ev rest IH]; intros e e' H; simpl in H.
  - injection H as <-. repeat split.
  - destruct ev as [status| |index|].
    + discriminate.
    + destruct (IH _ _ H) as [Hb Hd]. split; [exact Hb|].
      intros Hall. inversion Hall; subst. auto.
    + destruct (IH _ _ H) as [Hb Hd]. split; [exact Hb|].
      intros Hall. inversion Hall; subst. rewrite Hd by assumption. reflexivity.
    + destruct (IH _ _ H) as [Hb Hd]. split; [exact Hb|].
      intros Hall. inversion Hall as [|x l Hx Hl]; subst. contradiction.
Qed.

Lemma channelControl_frame (events : list Event) :
  forall e e' : Engine,
    channelControl e events = Some e' ->
    sameBudget e e' /\ (Forall failingEvent events -> done e' = done e).
Proof.
  induction events as [|ev rest IH]; intros e e' H; simpl in H.
  - destruct (shouldStop e); [|discriminate].
    injection H as <-. repeat split.
  - destruct ev as [status| |index|].
    + destruct (IH _ _ H) as [(Hr & Hm & Hl) Hd].
      destruct (handleChannelStatus_frame e status) as [(Hr' & Hm' & Hl') Hd'].
      split; [repeat split; congruence|].
      intros Hall. inversion Hall; subst. rewrite Hd by assumption. exact Hd'.
    + destruct (shouldStop e).
      * destruct (afterStop_frame _ _ _ H) as [Hb Hd]. split; [exact Hb|].
        intros Hall. inversion Hall; subst. auto.
      * destruct (IH _ _ H) as [Hb Hd]. split; [exact Hb|].
        intros Hall. inversion Hall; subst. auto.
    + destruct (IH _ _ H) as [Hb Hd]. split; [exact Hb|].
      intros Hall. inversion Hall; subst. rewrite Hd by assumption. reflexivity.
    + destruct (IH _ _ H) as [Hb Hd]. split; [exact Hb|].
      intros Hall. inversion Hall as [|x l Hx Hl]; subst. contradiction.
Qed.

Lemma withoutControl_frame (events : list Event) :
  forall e : Engine,
    sameBudget e (withoutControl e events)
    /\ (Forall failingEvent events -> done (withoutControl e events) = done e).
Proof.
  induction events as [|ev rest IH]; intros e; simpl.
  - repeat split.
  - destruct ev as [status| |index|].
    + destruct (IH e) as [Hb Hd]. split; [exact Hb|].
      intros Hall. inversion Hall; subst. auto.
    + destruct (IH e) as [Hb Hd]. split; [exact Hb|].
      intros Hall. inversion Hall; subst. auto.
    + destruct (IH (set_CurrentIndex e index)) as [Hb Hd]. split; [exact Hb|].
      intros Hall. inversion Hall; subst. rewrite Hd by assumption. reflexivity.
    + destruct (IH (Done e)) as [Hb Hd]. split; [exact Hb|].
      intros Hall. inversion Hall as [|x l Hx Hl]; subst. contradiction.
Qed.

Lemma runAttempt_frame (entry : EntryPoint) (e e' : Engine) :
  runAttempt entry e = Some e' ->
  sameBudget e e' /\ (alwaysFails entry -> done e' = done e).
Proof.
  unfold runAttempt, alwaysFails. intros H.
  destruct (UseDefaultChannelControl e).
  - destruct (channelControl_frame _ _ _ H) as [Hb Hd].
    split; [exact Hb | intros Hall; apply Hd, Hall].
  - injection H as <-.
    destruct (withoutControl_frame (entry e) e) as [Hb Hd].
    split; [exact Hb | intros Hall; apply Hd, Hall].
Qed.

Lemma setRecoveryStart_frame (e : Engine) :
  sameBudget e (setRecoveryStart e)
  /\ done (setRecoveryStart e) = done e
  /\ Failures (setRecoveryStart e) = Failures e.
Proof.
  unfold setRecoveryStart, sameBudget.
  destruct (negb (CurrentIndex e =? 0)); repeat split.
Qed.

(** The loop entered with [k] attempts left in the budget makes exactly these
    [k] attempts and gives up. *)
Lemma recoveryLoop_exhausts (entry : EntryPoint) (Hfail : alwaysFails entry) :
  forall (k fuel : nat) (e : Engine) (acc : list Engine),
    (forall f a, recoveryLoop f entry e acc <> Stalled a) ->
    done e = false ->
    MaxRecoveries e < GoInt.max_int ->
    0 <= Recoveries e ->
    Recoveries e = MaxRecoveries e + 1 - Z.of_nat k ->
    (k < fuel)%nat ->
    exists (e' : Engine) (attempts : list Engine),
      recoveryLoop fuel entry e acc = GaveUp e' (acc ++ attempts)
      /\ List.length attempts = k
      /\ Forall (fun a => done a = false) attempts
      /\ done e' = false
      /\ Recoveries e' = MaxRecoveries e + 1
      /\ MaxRecoveries e' = MaxRecoveries e
      /\ (k <> O -> Failures e' = 0).
Proof.
  induction k as [|k IH]; intros fuel e acc Hlive Hdone Hmax Hrec Hk Hfuel.
  - destruct fuel as [|fuel]; [lia|]. cbn [recoveryLoop].
    destruct (Z.leb_spec (Recoveries e) (MaxRecoveries e)) as [H|_]; [lia|].
    exists e, []. rewrite app_nil_r.
    repeat split; try assumption; try lia. constructor.
  - destruct fuel as [|fuel]; [lia|].
    pose proof (Hlive 1%nat) as Hone. cbn [recoveryLoop] in Hone |- *.
    destruct (Z.leb_spec (Recoveries e) (MaxRecoveries e)) as [_|H]; [|lia].
    destruct (runAttempt entry e) as [e1|] eqn:Hrun;
      [|exfalso; exact (Hone acc eq_refl)].
    destruct (runAttempt_frame _ _ _ Hrun) as [(Hr1 & Hm1 & _) Hd1].
    specialize (Hd1 Hfail). rewrite Hdone in Hd1. rewrite Hd1.
    destruct (setRecoveryStart_frame e1) as ((Hr2 & Hm2 & _) & Hd2 & _).
    set (e4 := set_Recoveries (set_Failures (setRecoveryStart e1) 0)
                 (GoInt.add (Recoveries (set_Failures (setRecoveryStart e1) 0)) 1)).
    assert (Hadd : Recoveries e4 = Recoveries e + 1).
    { unfold e4. cbn [Recoveries set_Recoveries set_Failures].
      rewrite Hr2, Hr1. apply wrap_id.
      unfold GoInt.in_int, GoInt.min_int, GoInt.max_int in *. lia. }
    assert (Hm4 : MaxRecoveries e4 = MaxRecoveries e).
    { unfold e4. cbn [MaxRecoveries set_Recoveries set_Failures]. congruence. }
    assert (Hd4 : done e4 = false).
    { unfold e4. cbn [done set_Recoveries set_Failures]. congruence. }
    assert (Hf4 : Failures e4 = 0) by reflexivity.
    destruct (IH fuel e4 (acc ++ [e1])) as (e' & atts & Hres & Hlen & Hall & Hd' & Hr' & Hm' & Hf');
      try lia; try assumption.
    { intros f a Hst. apply (Hlive (S f) a). cbn [recoveryLoop].
      destruct (Z.leb_spec (Recoveries e) (MaxRecoveries e)) as [_|H']; [|lia].
      rewrite Hrun, Hd1. exact Hst. }
    exists e', (e1 :: atts).
    rewrite Hres, <- app_assoc. cbn [app List.length].
    repeat split; try assumption; try lia.
    + constructor; assumption.
    + intros _. destruct k as [|k'].
      * destruct fuel as [|fuel']; [lia|]. cbn [recoveryLoop] in Hres.
        destruct (Z.leb_spec (Recoveries e4) (MaxRecoveries e4)) as [H'|_]; [lia|].
        injection Hres as <- _. exact Hf4.
      * apply Hf'. discriminate.
Qed.

(** With an entry point that signals only failures and never marks the engine
    done, and attempts that all come to their end, the sequential run spends
    its whole budget and gives up. *)
Lemma runAsSequential_exhausts_budget (fuel : nat) (entry : EntryPoint)
    (e : Engine) :
  alwaysFails entry ->
  neverStalls entry e ->
  done e = false ->
  -1 <= MaxRecoveries e < GoInt.max_int ->
  (Z.to_nat (MaxRecoveries e + 1) < fuel)%nat ->
  exists (e' : Engine) (attempts : list Engine),
    runAsSequential fuel true entry e = GaveUp e' attempts
    /\ Z.of_nat (List.length attempts) = MaxRecoveries e + 1
    /\ Forall (fun a => done a = false) attempts
    /\ done e' = false
    /\ Recoveries e' = MaxRecoveries e + 1
    /\ (0 <= MaxRecoveries e -> Failures e' = 0).
Proof.
  intros Hfail Hlive Hdone Hmax Hfuel.
  unfold runAsSequential.
  destruct (recoveryLoop_exhausts entry Hfail
              (Z.to_nat (MaxRecoveries e + 1)) fuel (set_Recoveries e 0) [])
    as (e' & atts & Hres & Hlen & Hall & Hd' & Hr' & Hm' & Hf');
    cbn [done MaxRecoveries Recoveries set_Recoveries]; try lia; try assumption.
  exists e', atts. rewrite Hres. cbn [app].
  cbn [MaxRecoveries set_Recoveries] in Hr'.
  repeat split; try assumption.
  - rewrite Hlen. lia.
  - intros Hpos. apply Hf'. lia.
Qed.

Lemma statusCount_nonneg (events : list Event) : 0 <= statusCount events.
Proof. unfold statusCount. lia. Qed.

Lemma statusCount_Status (status : Z) (events : list Event) :
  statusCount (Status status :: events) = 1 + statusCount events.
Proof.
  unfold statusCount. cbn [filter].
  change (Datatypes.length (?h :: ?t)) with (S (Datatypes.length t)).
  rewrite Nat2Z.inj_succ. lia.
Qed.

Lemma statusCount_Fetch (index : Z) (events : list Event) :
  statusCount (Fetch index :: events) = statusCount events.
Proof. reflexivity. Qed.

Lemma steadyFailure_failingEvent (ev : Event) :
  steadyFailure ev -> failingEvent ev.
Proof. destruct ev; simpl; auto. Qed.

Lemma failsToTheLimit_alwaysFails (entry : EntryPoint) (limit : Z) :
  failsToTheLimit entry limit -> alwaysFails entry.
Proof.
  intros H e. destruct (H e) as [Hall _].
  eapply Forall_impl; [|exact Hall]. exact steadyFailure_failingEvent.
Qed.

(** Failures sent one after the other, enough of them to reach the limit, end
    the listener. *)
Lemma channelControl_steady (events : list Event) :
  forall e : Engine,
    Forall steadyFailure events ->
    0 <= Failures e ->
    Failures e + statusCount events <= GoInt.max_int ->
    MaxFailures e <= Failures e + statusCount events ->
    channelControl e events <> None.
Proof.
  induction events as [|ev rest IH]; intros e Hall H0 Hmax Hlim.
  - change (statusCount []) with 0 in *. cbn [channelControl].
    rewrite (proj2 (shouldStop_true_iff e)) by (left; lia). discriminate.
  - inversion Hall as [|x l Hev Hrest]; subst x l.
    pose proof (statusCount_nonneg rest) as Hnn.
    destruct ev as [status| |index|]; cbn [steadyFailure] in Hev;
      try contradiction; cbn [channelControl].
    + rewrite statusCount_Status in Hmax, Hlim.
      rewrite handleChannelStatus_failure by exact Hev.
      assert (E : GoInt.add (Failures e) 1 = Failures e + 1).
      { apply wrap_id.
        unfold GoInt.in_int, GoInt.min_int, GoInt.max_int in *. lia. }
      rewrite E.
      apply IH; cbn [Failures MaxFailures set_Failures]; try assumption; lia.
    + rewrite statusCount_Fetch in Hmax, Hlim.
      apply IH; cbn [Failures MaxFailures set_CurrentIndex]; assumption.
Qed.

Lemma runAttempt_steady (entry : EntryPoint) (e : Engine) :
  failsToTheLimit entry (MaxFailures e) ->
  Failures e = 0 ->
  runAttempt entry e <> None.
Proof.
  intros Hlim H0. unfold runAttempt.
  destruct (UseDefaultChannelControl e); [|discriminate].
  destruct (Hlim e) as [Hall [Hlow Hhigh]].
  apply channelControl_steady; try assumption; lia.
Qed.

Lemma recoveryLoop_steady (entry : EntryPoint) (limit : Z)
    (Hlim : failsToTheLimit entry limit) :
  forall (fuel : nat) (e : Engine) (acc attempts : list Engine),
    Failures e = 0 ->
    MaxFailures e = limit ->
    recoveryLoop fuel entry e acc <> Stalled attempts.
Proof.
  induction fuel as [|fuel IH]; intros e acc attempts H0 HM;
    cbn [recoveryLoop]; [discriminate|].
  destruct (Recoveries e <=? MaxRecoveries e); [|discriminate].
  destruct (runAttempt entry e) as [e1|] eqn:Hrun.
  - destruct (done e1); [discriminate|].
    apply IH; [reflexivity|].
    destruct (runAttempt_frame _ _ _ Hrun) as [(_ & _ & Hl1) _].
    destruct (setRecoveryStart_frame e1) as ((_ & _ & Hl2) & _).
    cbn [MaxFailures set_Recoveries set_Failures]. congruence.
  - exfalso. revert Hrun. apply runAttempt_steady; [|exact H0].
    rewrite HM. exact Hlim.
Qed.

(** A sufficient condition for the attempts to end: an entry point that in
    every attempt signals failures only, up to the failure limit, on a fresh
    engine. *)
Lemma runAsSequential_gives_up_at_the_limit (fuel : nat) (entry : EntryPoint)
    (e : Engine) :
  failsToTheLimit entry (MaxFailures e) ->
  done e = false ->
  Failures e = 0 ->
  -1 <= MaxRecoveries e < GoInt.max_int ->
  (Z.to_nat (MaxRecoveries e + 1) < fuel)%nat ->
  exists (e' : Engine) (attempts : list Engine),
    runAsSequential fuel true entry e = GaveUp e' attempts
    /\ Z.of_nat (List.length attempts) = MaxRecoveries e + 1
    /\ Forall (fun a => done a = false) attempts
    /\ done e' = false
    /\ Recoveries e' = MaxRecoveries e + 1
    /\ (0 <= MaxRecoveries e -> Failures e' = 0).
Proof.
  intros Hlim Hdone H0 Hmax Hfuel.
  apply runAsSequential_exhausts_budget; try assumption.
  - exact (failsToTheLimit_alwaysFails _ _ Hlim).
  - intros f attempts. unfold runAsSequential.
    apply (recoveryLoop_steady entry (MaxFailures e) Hlim);
      [exact H0 | reflexivity].
Qed.

(** C6, as the claim states it, in the scenario of the specification (two
    failures allowed, one recovery) with an entry point that signals a third
    failure after the listener, polling with the limit reached, has returned:
    the entry point signals nothing but failures and never marks the engine
    done, yet its send finds no receiver, the first attempt never ends, and
    the run makes no attempt to its end and never gives up, whatever the
    fuel. *)
Lemma runAsSequential_blocked_after_the_limit :
  alwaysFails persistentEntry
  /\ done scenarioEngine = false
  /\ MaxFailures scenarioEngine = 2
  /\ MaxRecoveries scenarioEngine = 1
  /\ runAsSequential 3 true persistentEntry scenarioEngine = Stalled []
  /\ (forall (fuel : nat) (e' : Engine) (attempts : list Engine),
        runAsSequential fuel true persistentEntry scenarioEngine
        <> GaveUp e' attempts).
Proof.
  split; [intros e; repeat constructor; discriminate|].
  repeat split.
  intros fuel e' attempts.
  destruct fuel as [|fuel]; vm_compute; discriminate.
Qed.

(** C6, amended. Under the default listener, with an entry point that signals
    only failures and never marks the engine done, attempts that all come to
    their end, an engine not marked done, a connected index and a maximum of
    recoveries from -1 up to, and not including, the largest [int], the
    sequential run makes exactly maximum-of-recoveries plus one attempts and
    then gives up: the done flag is unset after every attempt and at the end,
    the recovery count is one past the maximum and, as soon as one attempt
    was made, the failure count is back at zero. *)
Theorem runAsSequential_gives_up (fuel : nat) (entry : EntryPoint)
    (e : Engine) :
  alwaysFails entry ->
  neverStalls entry e ->
  UseDefaultChannelControl e = true ->
  done e = false ->
  -1 <= MaxRecoveries e < GoInt.max_int ->
  (Z.to_nat (MaxRecoveries e + 1) < fuel)%nat ->
  exists (e' : Engine) (attempts : list Engine),
    runAsSequential fuel true entry e = GaveUp e' attempts
    /\ Z.of_nat (List.length attempts) = MaxRecoveries e + 1
    /\ Forall (fun a => done a = false) attempts
    /\ done e' = false
    /\ Recoveries e' = MaxRecoveries e + 1
    /\ (0 <= MaxRecoveries e -> Failures e' = 0).
Proof.
  intros Hfail Hlive _ Hdone Hmax Hfuel.
  apply runAsSequential_exhausts_budget; assumption.
Qed.

(** The scenario of the specification, the listener polling once between the
    two failures of each attempt: two attempts. *)
Lemma runAsSequential_gives_up_witness :
  exists (e' : Engine) (attempts : list Engine),
    runAsSequential 3 true pollingEntry scenarioEngine = GaveUp e' attempts
    /\ Z.of_nat (List.length attempts) = MaxRecoveries scenarioEngine + 1
    /\ Forall (fun a => done a = false) attempts
    /\ done e' = false
    /\ Recoveries e' = MaxRecoveries scenarioEngine + 1
    /\ (0 <= MaxRecoveries scenarioEngine -> Failures e' = 0).
Proof.
  apply (runAsSequential_gives_up 3 pollingEntry scenarioEngine).
  - intros e. repeat constructor; discriminate.
  - intros f a. destruct f as [|[|[|f]]]; vm_compute; discriminate.
  - reflexivity.
  - reflexivity.
  - vm_compute. split; [discriminate | reflexivity].
  - vm_compute. lia.
Defined.

Example polling_two_attempts :
  match runAsSequential 3 true pollingEntry scenarioEngine with
  | GaveUp e' attempts =>
      List.length attempts = 2%nat /\ map Failures attempts = [2; 2]
      /\ done e' = false /\ Recoveries e' = 2 /\ Failures e' = 0
  | _ => False
  end.
Proof. vm_compute. repeat split. Qed.

(** An entry point that fails once only leaves the listener below the limit
    of two: the first attempt never ends. *)
Example single_failure_stalls :
  runAsSequential 3 true (fun _ => [Status 500]) scenarioEngine = Stalled [].
Proof. vm_compute. reflexivity. Qed.

Example scenario_two_attempts :
  match runAsSequential 3 true failingEntry scenarioEngine with
  | GaveUp e' attempts =>
      List.length attempts = 2%nat /\ map Failures attempts = [2; 2]
      /\ done e' = false /\ Recoveries e' = 2
  | _ => False
  end.
Proof. vm_compute. repeat split. Qed.

(** ** The replica coordinator *)

Lemma iterate_Return (pool : Pool) (case : Select) :
  iterate pool case = Return
  <-> activeEngines pool = 0 /\ maxEngines pool = 0.
Proof.
  unfold iterate.
  destruct (Z.eqb_spec (activeEngines pool) 0) as [Ha|Ha];
    destruct (Z.eqb_spec (maxEngines pool) 0) as [Hm|Hm]; cbn [andb].
  1: split; [intros _; split; assumption | reflexivity].
  all: split; [|intros [? ?]; contradiction].
  all: destruct case; try discriminate;
    destruct (activeEngines pool <? maxEngines pool); discriminate.
Qed.

Lemma iterate_running (pool : Pool) (case : Select) :
  activeEngines pool <> 0 \/ maxEngines pool <> 0 ->
  iterate pool case
  = match case with
    | FromActiveEngines value =>
        Continue (mkPool (GoInt.add (activeEngines pool) value)
                    (maxEngines pool)) false
    | FromMaxEngines value =>
        Continue (mkPool (activeEngines pool)
                    (GoInt.add (maxEngines pool) value)) false
    | Default =>
        if activeEngines pool <? maxEngines pool
        then Continue (mkPool (GoInt.add (activeEngines pool) 1)
                         (maxEngines pool)) true
        else Continue pool false
    end.
Proof.
  intros H. unfold iterate.
  destruct (Z.eqb_spec (activeEngines pool) 0) as [Ha|Ha];
    destruct (Z.eqb_spec (maxEngines pool) 0) as [Hm|Hm]; cbn [andb];
    try reflexivity.
  destruct H; contradiction.
Qed.





(** ** Document types and document identifiers *)

Lemma append_bracket_inj (s1 s2 : string) :
  (s1 ++ "]")%string = (s2 ++ "]")%string -> s1 = s2.
Proof.
  revert s2. induction s1 as [|c s1 IH]; intros [|c2 s2] H; simpl in H.
  - reflexivity.
  - injection H as _ H. destruct s2; discriminate.
  - injection H as _ H. destruct s1; discriminate.
  - injection H as -> H. f_equal. apply IH. exact H.
Qed.

Ltac known_base e H :=
  let E := fresh "E" in
  destruct (String.eqb_spec (Base e) H) as [E|E].

(** X1. [GetDocumentType] gives different document types to engines of
    different bases: the base can be told from the document type. *)
Theorem GetDocumentType_injective (e1 e2 : Engine) :
  GetDocumentType e1 = GetDocumentType e2 -> Base e1 = Base e2.
Proof.
  unfold GetDocumentType.
  known_base e1 "baseAcordaos"%string;
  [|known_base e1 "baseSumulas"%string;
   [|known_base e1 "baseSumulasVinculantes"%string;
    [|known_base e1 "basePresidencia"%string;
     [|known_base e1 "baseRepercussao"%string;
      [|known_base e1 "basePrecedentes"%string]]]]];
  (known_base e2 "baseAcordaos"%string;
   [|known_base e2 "baseSumulas"%string;
    [|known_base e2 "baseSumulasVinculantes"%string;
     [|known_base e2 "basePresidencia"%string;
      [|known_base e2 "baseRepercussao"%string;
       [|known_base e2 "basePrecedentes"%string]]]]]);
  intros H; try congruence; try discriminate H.
  simpl in H. injection H as H. apply append_bracket_inj. exact H.
Qed.

Lemma GetDocumentType_injective_witness :
  Base (set_Base defaultEngine "baseSumulas")
  = Base (set_Base (set_Court defaultEngine "STF") "baseSumulas").
Proof.
  apply (GetDocumentType_injective
           (set_Base defaultEngine "baseSumulas")
           (set_Base (set_Court defaultEngine "STF") "baseSumulas")).
  reflexivity.
Defined.

Lemma split_at_hyphen (s1 : string) :
  forall s2 r1 r2 : string,
    hyphenFree s1 = true -> hyphenFree s2 = true ->
    (s1 ++ String "-" r1)%string = (s2 ++ String "-" r2)%string ->
    s1 = s2 /\ r1 = r2.
Proof.
  induction s1 as [|c s1 IH]; intros [|c2 s2] r1 r2 H1 H2 H;
    simpl in H, H1, H2.
  - injection H as H. split; [reflexivity | exact H].
  - injection H as Hc _. subst c2. discriminate H2.
  - injection H as Hc _. subst c. discriminate H1.
  - injection H as -> H.
    apply andb_true_iff in H1, H2. destruct H1 as [_ H1], H2 as [_ H2].
    destruct (IH _ _ _ H1 H2 H) as [-> ->]. split; reflexivity.
Qed.

Lemma Persist_keyed_by_documentUid
    (upsert : string -> Jurisprudence.t -> option string)
    (e : Engine) (j : Jurisprudence.t) (channel : list Z) :
  Persist upsert e j channel
  = match upsert (documentUid e j) j with
    | Some _ => channel ++ [500; 200]
    | None => channel ++ [200]
    end.
Proof.
  unfold Persist, documentUid.
  destruct (upsert _ j); [|reflexivity].
  rewrite <- app_assoc. reflexivity.
Qed.

(** X2. When neither the court nor the base holds a hyphen, the identifier
    under which [Persist] stores a document determines its court, its base
    and its document id: two documents that differ in one of them are stored
    under different identifiers. *)
Theorem documentUid_injective (e1 e2 : Engine) (j1 j2 : Jurisprudence.t) :
  hyphenFree (Jurisprudence.Court j1) = true ->
  hyphenFree (Jurisprudence.Court j2) = true ->
  hyphenFree (Base e1) = true ->
  hyphenFree (Base e2) = true ->
  documentUid e1 j1 = documentUid e2 j2 ->
  Jurisprudence.Court j1 = Jurisprudence.Court j2
  /\ Base e1 = Base e2
  /\ Jurisprudence.DocumentID j1 = Jurisprudence.DocumentID j2.
Proof.
  intros Hc1 Hc2 Hb1 Hb2 H. unfold documentUid in H.
  change ("-" ++ ?x)%string with (String "-" x) in H.
  destruct (split_at_hyphen _ _ _ _ Hc1 Hc2 H) as [Hc H'].
  destruct (split_at_hyphen _ _ _ _ Hb1 Hb2 H') as [Hb Hd].
  repeat split; assumption.
Qed.

Lemma documentUid_injective_witness :
  Jurisprudence.Court someDocument = Jurisprudence.Court someDocument
  /\ Base (set_Base defaultEngine "baseAcordaos")
     = Base (set_Base (set_Court defaultEngine "STF") "baseAcordaos")
  /\ Jurisprudence.DocumentID someDocument
     = Jurisprudence.DocumentID someDocument.
Proof.
  apply (documentUid_injective
           (set_Base defaultEngine "baseAcordaos")
           (set_Base (set_Court defaultEngine "STF") "baseAcordaos")
           someDocument someDocument); reflexivity.
Defined.

(** With a hyphen in the court or in the base two different documents can
    meet under one identifier. *)
Example documentUid_collision :
  documentUid (set_Base defaultEngine "c") (Jurisprudence.mk "a-b" "t" "d")
  = documentUid (set_Base defaultEngine "b-c") (Jurisprudence.mk "a" "t" "d").
Proof. reflexivity. Qed.

(** ** Construction *)

Lemma optionOf_concurrency (call : OptionCall) (st : Engine * ControlConfig) :
  concurrencySettled (fst st) ->
  concurrencySettled (fst (optionOf call st))
  /\ IsConcurrent (fst (optionOf call st))
     = IsConcurrent (fst st) || validConcurrency call.
Proof.
  destruct st as [e c]. intros [Ht Hf].
  destruct call; cbn [optionOf validConcurrency fst];
    try (split; [split; assumption | rewrite orb_false_r; reflexivity]).
  unfold Options.Concurrency.
  destruct (Z.gtb_spec maxReplicas 0) as [Hm|Hm];
    destruct (Z.gtb_spec replicaRange 0) as [Hr|Hr]; cbn [andb fst];
    try (split; [split; assumption | rewrite orb_false_r; reflexivity]).
  split; [|rewrite orb_true_r; reflexivity].
  split; cbn; [intros _; split; assumption | discriminate].
Qed.

Lemma applyCalls_concurrency (calls : list OptionCall) :
  forall st : Engine * ControlConfig,
    concurrencySettled (fst st) ->
    concurrencySettled (fst (applyCalls calls st))
    /\ IsConcurrent (fst (applyCalls calls st))
       = IsConcurrent (fst st) || existsb validConcurrency calls.
Proof.
  induction calls as [|call rest IH]; intros st Hst.
  - cbn. split; [exact Hst | rewrite orb_false_r; reflexivity].
  - destruct (optionOf_concurrency call st Hst) as [H1 E1].
    destruct (IH _ H1) as [H2 E2].
    change (applyCalls (call :: rest) st)
      with (applyCalls rest (optionOf call st)).
    split; [exact H2|].
    rewrite E2, E1. cbn [existsb]. rewrite orb_assoc. reflexivity.
Qed.

(** X3. Whatever options an engine is built with, it is concurrent exactly
    when one of them was a [Concurrency] with both arguments positive; a
    concurrent engine has a positive number of replicas and a positive range,
    and an engine that is not concurrent has both at zero: a [Concurrency]
    with an argument that is not positive changes nothing. *)
Theorem build_concurrency (calls : list OptionCall) (control : ControlConfig) :
  let e := fst (build calls control) in
  (IsConcurrent e = true <-> existsb validConcurrency calls = true)
  /\ (IsConcurrent e = true -> 0 < MaxReplicas e /\ 0 < ReplicaRange e)
  /\ (IsConcurrent e = false -> MaxReplicas e = 0 /\ ReplicaRange e = 0).
Proof.
  cbv zeta.
  assert (H0 : concurrencySettled (fst (defaultEngine, control))).
  { split; [discriminate | intros _; split; reflexivity]. }
  destruct (applyCalls_concurrency calls _ H0) as [[Ht Hf] E].
  change (build calls control) with (applyCalls calls (defaultEngine, control)).
  cbn [fst defaultEngine IsConcurrent orb] in E.
  split; [rewrite E; reflexivity|]. split; assumption.
Qed.

Lemma optionOf_start (call : OptionCall) (st : Engine * ControlConfig) :
  (isStart call = true ->
   startSeeded (optionOf call st)
   /\ exists s, call = CallStart s /\ Start (fst (optionOf call st)) = s)
  /\ (isStart call = false ->
      snd (optionOf call st) = snd st
      /\ Start (fst (optionOf call st)) = Start (fst st)).
Proof.
  destruct st as [e c].
  destruct call; cbn [isStart optionOf]; split; try discriminate;
    intros _; try (split; reflexivity).
  - split; [reflexivity | eexists; split; reflexivity].
  - unfold Options.Concurrency.
    destruct ((maxReplicas >? 0) && (replicaRange >? 0)); split; reflexivity.
Qed.

Lemma applyCalls_no_start (calls : list OptionCall) :
  forall st : Engine * ControlConfig,
    existsb isStart calls = false ->
    snd (applyCalls calls st) = snd st
    /\ Start (fst (applyCalls calls st)) = Start (fst st).
Proof.
  induction calls as [|call rest IH]; intros st H.
  - split; reflexivity.
  - cbn [existsb] in H. apply orb_false_iff in H. destruct H as [Hc Hr].
    change (applyCalls (call :: rest) st)
      with (applyCalls rest (optionOf call st)).
    destruct (IH (optionOf call st) Hr) as [E1 E2].
    destruct (proj2 (optionOf_start call st) Hc) as [E3 E4].
    split; congruence.
Qed.

Lemma applyCalls_app (l1 l2 : list OptionCall) (st : Engine * ControlConfig) :
  applyCalls (l1 ++ l2) st = applyCalls l2 (applyCalls l1 st).
Proof. unfold applyCalls. rewrite map_app, fold_left_app. reflexivity. Qed.

(** X4. [Start] keeps the shared cursor and the start index of the engine
    together: after a construction in which [Start] was called, whatever else
    was called before and after, the cursor and the start index are both the
    argument of the last such call; after a construction without [Start] the
    cursor is untouched and the start index is 0. *)
Theorem build_start_seeds_cursor (calls : list OptionCall)
    (control : ControlConfig) :
  (forall (before after : list OptionCall) (start : Z),
      calls = before ++ CallStart start :: after ->
      existsb isStart after = false ->
      Start (fst (build calls control)) = start
      /\ LastGoRoutineRange (snd (build calls control)) = start)
  /\ (existsb isStart calls = false ->
      snd (build calls control) = control
      /\ Start (fst (build calls control)) = 0).
Proof.
  change (build calls control) with (applyCalls calls (defaultEngine, control)).
  split.
  - intros before after start -> Hafter.
    rewrite applyCalls_app.
    change (applyCalls (CallStart start :: after) ?st)
      with (applyCalls after (optionOf (CallStart start) st)).
    destruct (applyCalls_no_start after
                (optionOf (CallStart start)
                   (applyCalls before (defaultEngine, control))) Hafter)
      as [E1 E2].
    rewrite E1, E2.
    destruct (applyCalls before (defaultEngine, control)) as [e c].
    split; reflexivity.
  - intros H. exact (applyCalls_no_start calls (defaultEngine, control) H).
Qed.

(** ** The failure counter, continued *)

Lemma receive_app (e : Engine) (l1 l2 : list Z) :
  receive e (l1 ++ l2) = receive (receive e l1) l2.
Proof. unfold receive. apply fold_left_app. Qed.

Lemma receive_failures (failures : list Z) :
  forall e : Engine,
    Forall (fun s => s <> StatusOK) failures ->
    0 <= Failures e ->
    Failures e + Z.of_nat (List.length failures) <= GoInt.max_int ->
    Failures (receive e failures)
    = Failures e + Z.of_nat (List.length failures).
Proof.
  induction failures as [|s l IH]; intros e Hall H0 Hmax.
  - cbn. lia.
  - inversion Hall as [|x y Hs Hl]; subst x y.
    change (List.length (s :: l)) with (S (List.length l)) in *.
    rewrite Nat2Z.inj_succ in *.
    change (receive e (s :: l)) with (receive (handleChannelStatus e s) l).
    rewrite handleChannelStatus_failure by exact Hs.
    assert (E : GoInt.add (Failures e) 1 = Failures e + 1).
    { apply wrap_id.
      unfold GoInt.in_int, GoInt.min_int, GoInt.max_int in *. lia. }
    rewrite IH; cbn [Failures set_Failures]; rewrite ?E; try assumption; lia.
Qed.

Lemma receive_successes (m : nat) :
  forall e : Engine,
    0 <= Failures e <= GoInt.max_int ->
    Failures (receive e (repeat StatusOK m))
    = Z.max 0 (Failures e - Z.of_nat m).
Proof.
  induction m as [|m IH]; intros e H0.
  - cbn [repeat]. unfold receive; cbn [fold_left]. lia.
  - cbn [repeat]. rewrite Nat2Z.inj_succ.
    change (receive e (StatusOK :: repeat StatusOK m))
      with (receive (handleChannelStatus e StatusOK) (repeat StatusOK m)).
    rewrite handleChannelStatus_success.
    destruct (Z.gtb_spec (Failures e) 0) as [Hp|Hp].
    + assert (E : GoInt.sub (Failures e) 1 = Failures e - 1).
      { apply wrap_id.
        unfold GoInt.in_int, GoInt.min_int, GoInt.max_int in *. lia. }
      rewrite IH; cbn [Failures set_Failures]; rewrite ?E; lia.
    + rewrite IH by lia. lia.
Qed.

(** X5. Failures decay one by one: after a run of failure statuses followed
    by [m] statuses 200 the counter is what it was, plus the failures, minus
    [m], and 0 if that is negative. *)
Theorem failures_decay (e : Engine) (failures : list Z) (m : nat) :
  Forall (fun s => s <> StatusOK) failures ->
  0 <= Failures e ->
  Failures e + Z.of_nat (List.length failures) <= GoInt.max_int ->
  Failures (receive e (failures ++ repeat StatusOK m))
  = Z.max 0 (Failures e + Z.of_nat (List.length failures) - Z.of_nat m).
Proof.
  intros Hall H0 Hmax.
  rewrite receive_app, receive_successes;
    rewrite (receive_failures failures e Hall H0 Hmax); [reflexivity | lia].
Qed.

Lemma failures_decay_witness :
  Failures (receive defaultEngine ([500; 404; 503] ++ repeat StatusOK 2)) = 1
  /\ Failures (receive defaultEngine ([500; 404; 503] ++ repeat StatusOK 5))
     = 0.
Proof.
  split.
  - rewrite (failures_decay defaultEngine [500; 404; 503] 2).
    + reflexivity.
    + repeat constructor; discriminate.
    + cbn. lia.
    + vm_compute. discriminate.
  - rewrite (failures_decay defaultEngine [500; 404; 503] 5).
    + reflexivity.
    + repeat constructor; discriminate.
    + cbn. lia.
    + vm_compute. discriminate.
Defined.

(** X7. A stop for failures does not last: an engine stopped with its failure
    count at a positive limit, and for no other reason, is no longer stopped
    once the listener has taken one status 200. *)
Theorem failure_stop_is_lifted_by_success (e : Engine) :
  Failures e = MaxFailures e ->
  0 < MaxFailures e <= GoInt.max_int ->
  done e = false ->
  IsConcurrent e = false \/ CurrentIndex e <= End e ->
  shouldStop e = true
  /\ shouldStop (handleChannelStatus e StatusOK) = false.
Proof.
  intros Hf Hpos Hd Hb. split.
  - apply shouldStop_true_iff. left. lia.
  - rewrite handleChannelStatus_success.
    destruct (Z.gtb_spec (Failures e) 0) as [_|H]; [|lia].
    assert (E : GoInt.sub (Failures e) 1 = Failures e - 1).
    { apply wrap_id.
      unfold GoInt.in_int, GoInt.min_int, GoInt.max_int in *. lia. }
    rewrite E.
    destruct (shouldStop (set_Failures e (Failures e - 1))) eqn:Hs;
      [|reflexivity].
    apply shouldStop_true_iff in Hs.
    cbn [Failures MaxFailures IsConcurrent End CurrentIndex done set_Failures]
      in Hs.
    destruct Hs as [H|[[Hc Hi]|H]]; [lia | | congruence].
    destruct Hb as [Hb|Hb]; [congruence | lia].
Qed.

Lemma failure_stop_is_lifted_by_success_witness :
  shouldStop (set_Failures defaultEngine 25) = true
  /\ shouldStop (handleChannelStatus (set_Failures defaultEngine 25) StatusOK)
     = false.
Proof.
  apply (failure_stop_is_lifted_by_success (set_Failures defaultEngine 25)).
  - reflexivity.
  - vm_compute. split; [reflexivity | discriminate].
  - reflexivity.
  - left; reflexivity.
Defined.

(** ** The done mark, continued *)

Lemma handleChannelStatus_keeps_done (e : Engine) (status : Z) :
  done (handleChannelStatus e status) = done e.
Proof. apply handleChannelStatus_frame. Qed.

Lemma receive_keeps_done (statuses : list Z) :
  forall e : Engine, done (receive e statuses) = done e.
Proof.
  induction statuses as [|s l IH]; intros e; [reflexivity|].
  change (receive e (s :: l)) with (receive (handleChannelStatus e s) l).
  rewrite IH. apply handleChannelStatus_keeps_done.
Qed.

Lemma afterStop_keeps_done (events : list Event) :
  forall e e' : Engine,
    afterStop e events = Some e' -> done e = true -> done e' = true.
Proof.
  induction events as [|ev rest IH]; intros e e' H Hd; simpl in H.
  - injection H as <-. exact Hd.
  - destruct ev; try discriminate; apply (IH _ _ H); assumption || reflexivity.
Qed.

Lemma channelControl_keeps_done (events : list Event) :
  forall e e' : Engine,
    channelControl e events = Some e' -> done e = true -> done e' = true.
Proof.
  induction events as [|ev rest IH]; intros e e' H Hd; simpl in H.
  - destruct (shouldStop e); [|discriminate]. injection H as <-. exact Hd.
  - destruct ev.
    + apply (IH _ _ H). rewrite handleChannelStatus_keeps_done. exact Hd.
    + destruct (shouldStop e).
      * exact (afterStop_keeps_done _ _ _ H Hd).
      * exact (IH _ _ H Hd).
    + apply (IH _ _ H). exact Hd.
    + apply (IH _ _ H). reflexivity.
Qed.

Lemma withoutControl_keeps_done (events : list Event) :
  forall e : Engine, done e = true -> done (withoutControl e events) = true.
Proof.
  induction events as [|ev rest IH]; intros e Hd; simpl.
  - exact Hd.
  - destruct ev; apply IH; assumption || reflexivity.
Qed.

Lemma runAttempt_keeps_done (entry : EntryPoint) (e e' : Engine) :
  runAttempt entry e = Some e' -> done e = true -> done e' = true.
Proof.
  unfold runAttempt. destruct (UseDefaultChannelControl e); intros H Hd.
  - exact (channelControl_keeps_done _ _ _ H Hd).
  - injection H as <-. exact (withoutControl_keeps_done _ _ Hd).
Qed.

(** X6. Nothing unsets the done mark.  An engine marked done stays stopped
    whatever statuses its listener takes, and a sequential run started on it
    lets the entry point run once more and then reports success after that
    single attempt, with no recovery spent, unless that attempt never ends. *)
Theorem done_is_never_unset (fuel : nat) (entry : EntryPoint) (e : Engine) :
  done e = true ->
  0 <= MaxRecoveries e ->
  (1 <= fuel)%nat ->
  (forall statuses : list Z,
      done (receive e statuses) = true
      /\ shouldStop (receive e statuses) = true)
  /\ ((exists e1 : Engine,
         runAsSequential fuel true entry e = Succeeded e1 [e1]
         /\ done e1 = true /\ Recoveries e1 = 0)
      \/ runAsSequential fuel true entry e = Stalled []).
Proof.
  intros Hd Hmax Hfuel. split.
  - intros statuses.
    assert (D : done (receive e statuses) = true)
      by (rewrite receive_keeps_done; exact Hd).
    split; [exact D|]. apply shouldStop_true_iff. right; right; exact D.
  - destruct fuel as [|fuel]; [lia|].
    unfold runAsSequential. cbn [recoveryLoop Recoveries MaxRecoveries set_Recoveries].
    destruct (Z.leb_spec 0 (MaxRecoveries e)) as [_|H]; [|lia].
    destruct (runAttempt entry (set_Recoveries e 0)) as [e1|] eqn:Hrun;
      [|right; reflexivity].
    left. exists e1.
    pose proof (runAttempt_keeps_done _ _ _ Hrun Hd) as Hd1.
    destruct (runAttempt_frame _ _ _ Hrun) as [(Hr & _ & _) _].
    rewrite Hd1. repeat split; assumption.
Qed.

Lemma done_is_never_unset_witness :
  (forall statuses : list Z,
      done (receive (Done scenarioEngine) statuses) = true
      /\ shouldStop (receive (Done scenarioEngine) statuses) = true)
  /\ ((exists e1 : Engine,
         runAsSequential 1 true failingEntry (Done scenarioEngine)
         = Succeeded e1 [e1]
         /\ done e1 = true /\ Recoveries e1 = 0)
      \/ runAsSequential 1 true failingEntry (Done scenarioEngine)
         = Stalled []).
Proof.
  apply (done_is_never_unset 1 failingEntry (Done scenarioEngine)).
  - reflexivity.
  - vm_compute. discriminate.
  - lia.
Defined.

(** ** Persisting and the failure counter *)

Lemma persistAll_statuses
    (upsert : string -> Jurisprudence.t -> option string) (engine : Engine)
    (documents : list Jurisprudence.t) :
  forall channel : list Z,
    persistAll upsert engine documents channel
    = channel ++ List.concat (map (statusesOf upsert engine) documents).
Proof.
  induction documents as [|j rest IH]; intros channel.
  - cbn. rewrite app_nil_r. reflexivity.
  - change (persistAll upsert engine (j :: rest) channel)
      with (persistAll upsert engine rest (Persist upsert engine j channel)).
    rewrite IH, Persist_keyed_by_documentUid. unfold statusesOf. cbn [map List.concat].
    destruct (upsert (documentUid engine j) j); rewrite <- app_assoc; reflexivity.
Qed.

Lemma receive_keeps_MaxFailures (statuses : list Z) :
  forall e : Engine, MaxFailures (receive e statuses) = MaxFailures e.
Proof.
  induction statuses as [|s l IH]; intros e; [reflexivity|].
  change (receive e (s :: l)) with (receive (handleChannelStatus e s) l).
  rewrite IH. apply handleChannelStatus_frame.
Qed.

Lemma receive_failed_upsert (e : Engine) :
  Failures e = 0 -> Failures (receive e [500; 200]) = 0.
Proof.
  intros H0.
  change [500; 200] with ([500] ++ repeat StatusOK 1).
  assert (F : Failures (receive e [500]) = 1).
  { rewrite (receive_failures [500] e); rewrite ?H0; cbn;
      try lia; try (vm_compute; discriminate).
    repeat constructor; discriminate. }
  rewrite receive_app, receive_successes; rewrite F; [reflexivity|].
  vm_compute. split; discriminate.
Qed.

Lemma persisted_prefix (blocks : list (list Z)) :
  Forall (fun b => b = [500; 200] \/ b = [200]) blocks ->
  forall (e : Engine) (before after : list Z),
    Failures e = 0 ->
    List.concat blocks = before ++ after ->
    0 <= Failures (receive e before) <= 1
    /\ (after = [] -> Failures (receive e before) = 0).
Proof.
  induction 1 as [|b blocks Hb _ IH]; intros e before after H0 Hcat.
  - cbn in Hcat. destruct before; [|discriminate].
    cbn. rewrite H0. split; [lia | reflexivity].
  - cbn [List.concat] in Hcat.
    destruct before as [|s1 before].
    + cbn [app] in Hcat. split; [cbn; lia|].
      intros ->. destruct Hb as [-> | ->]; discriminate.
    + destruct Hb as [-> | ->]; cbn [app] in Hcat; injection Hcat as <- Hcat.
      * destruct before as [|s2 before].
        -- cbn [app] in Hcat. split; [|intros ->; discriminate].
           rewrite (receive_failures [500] e); rewrite ?H0; cbn;
             try lia; try (vm_compute; discriminate).
           repeat constructor; discriminate.
        -- cbn [app] in Hcat. injection Hcat as <- Hcat.
           change (receive e (500 :: 200 :: before))
             with (receive (receive e [500; 200]) before).
           apply (IH _ before after); [|exact Hcat].
           apply receive_failed_upsert. exact H0.
      * change (receive e (200 :: before))
          with (receive (receive e (repeat StatusOK 1)) before).
        apply (IH _ before after); [|exact Hcat].
        rewrite receive_successes; rewrite H0; [reflexivity|].
        vm_compute. split; discriminate.
Qed.

(** X8. Failed upserts never add up.  Whatever the store answers to a
    sequence of [Persist] calls, a listener that starts without failures
    counts none once it has taken all the statuses sent, and never more than
    one on the way: with a limit of two or more the failures of the store
    alone never stop the engine. *)
Theorem store_failures_never_accumulate
    (upsert : string -> Jurisprudence.t -> option string) (e : Engine)
    (documents : list Jurisprudence.t) :
  Failures e = 0 ->
  Failures (receive e (persistAll upsert e documents [])) = 0
  /\ forall before after : list Z,
       persistAll upsert e documents [] = before ++ after ->
       0 <= Failures (receive e before) <= 1
       /\ (2 <= MaxFailures e ->
           Failures (receive e before) < MaxFailures (receive e before)).
Proof.
  intros H0.
  assert (Hblocks :
    Forall (fun b => b = [500; 200] \/ b = [200])
      (map (statusesOf upsert e) documents)).
  { apply Forall_forall. intros b Hb. apply in_map_iff in Hb.
    destruct Hb as (j & <- & _). unfold statusesOf.
    destruct (upsert (documentUid e j) j); [left | right]; reflexivity. }
  rewrite persistAll_statuses. cbn [app]. split.
  - apply (persisted_prefix _ Hblocks e _ [] H0);
      [rewrite app_nil_r|]; reflexivity.
  - intros before after Hsplit.
    destruct (persisted_prefix _ Hblocks e before after H0 Hsplit) as [B _].
    split; [exact B|].
    intros Hlimit. rewrite receive_keeps_MaxFailures. lia.
Qed.

Lemma store_failures_never_accumulate_witness :
  Failures
    (receive defaultEngine
       (persistAll failingStore defaultEngine
          [someDocument; someDocument; someDocument] [])) = 0.
Proof.
  apply (store_failures_never_accumulate failingStore defaultEngine
           [someDocument; someDocument; someDocument]).
  reflexivity.
Defined.

(** ** The recovery loop, whatever the entry point does *)

Lemma recoveryLoop_outcome (entry : EntryPoint) :
  forall (fuel : nat) (e : Engine) (acc : list Engine),
    GoInt.min_int <= Recoveries e ->
    MaxRecoveries e < GoInt.max_int ->
    loopOutcome e acc (recoveryLoop fuel entry e acc).
Proof.
  induction fuel as [|fuel IH]; intros e acc Hlow Hmax; cbn [recoveryLoop].
  - exact I.
  - destruct (Z.leb_spec (Recoveries e) (MaxRecoveries e)) as [Hle|Hgt].
    + destruct (runAttempt entry e) as [e1|] eqn:Hrun.
      * destruct (runAttempt_frame _ _ _ Hrun) as [(Hr1 & Hm1 & _) _].
        destruct (done e1) eqn:Hd1.
        -- exists []. cbn. repeat split; try assumption; try constructor; lia.
        -- destruct (setRecoveryStart_frame e1) as ((Hr2 & Hm2 & _) & _).
           set (e4 := set_Recoveries (set_Failures (setRecoveryStart e1) 0)
                        (GoInt.add
                           (Recoveries (set_Failures (setRecoveryStart e1) 0))
                           1)).
           assert (Hadd : Recoveries e4 = Recoveries e + 1).
           { unfold e4. cbn [Recoveries set_Recoveries set_Failures].
             rewrite Hr2, Hr1. apply wrap_id.
             unfold GoInt.in_int, GoInt.min_int, GoInt.max_int in *. lia. }
           assert (Hm4 : MaxRecoveries e4 = MaxRecoveries e).
           { unfold e4. cbn [MaxRecoveries set_Recoveries set_Failures].
             congruence. }
           specialize (IH e4 (acc ++ [e1]) ltac:(lia) ltac:(lia)).
           destruct (recoveryLoop fuel entry e4 (acc ++ [e1]))
             as [e' atts|e' atts|x|atts|]; cbn [loopOutcome] in IH |- *.
           ++ destruct IH as (failed & -> & Hall & Hd & Hr & Hb).
              exists (e1 :: failed). rewrite <- app_assoc.
              change (List.length (e1 :: failed)) with (S (List.length failed)).
              rewrite Nat2Z.inj_succ.
              repeat split; try assumption; try lia.
              constructor; assumption.
           ++ destruct IH as (failed & -> & Hall & Hr & Hb & Hx).
              exists (e1 :: failed). rewrite <- app_assoc.
              change (List.length (e1 :: failed)) with (S (List.length failed)).
              rewrite Nat2Z.inj_succ.
              repeat split; try assumption; try lia.
              ** constructor; assumption.
              ** intros _. destruct failed as [|f failed'].
                 --- change (Z.of_nat (List.length (@nil Engine))) with 0 in Hr. lia.
                 --- rewrite Hx, Hm4 by discriminate. reflexivity.
           ++ exact IH.
           ++ destruct IH as (failed & -> & Hall & Hb).
              exists (e1 :: failed). rewrite <- app_assoc.
              change (List.length (e1 :: failed)) with (S (List.length failed)).
              rewrite Nat2Z.inj_succ.
              repeat split; try assumption; try lia.
              constructor; assumption.
           ++ exact I.
      * exists []. rewrite app_nil_r. cbn.
        repeat split; try constructor; lia.
    + exists []. rewrite app_nil_r. cbn.
      repeat split; try constructor; try lia. intros H; contradiction.
Qed.

(** X9. Whatever the entry point does, a sequential run on a connected index
    reports success only when its last attempt left the done mark, every
    earlier attempt having ended without it, and gives up only with the
    recovery count past the maximum; the attempts made are the recoveries
    spent, plus one on success, and never more than the maximum of recoveries
    plus one. *)
Theorem runAsSequential_outcome (fuel : nat) (entry : EntryPoint)
    (e : Engine) :
  MaxRecoveries e < GoInt.max_int ->
  match runAsSequential fuel true entry e with
  | Succeeded e' attempts =>
      done e' = true
      /\ (exists failed, attempts = failed ++ [e'] /\ Forall notDone failed)
      /\ Z.of_nat (List.length attempts) = Recoveries e' + 1
      /\ Z.of_nat (List.length attempts) <= MaxRecoveries e + 1
  | GaveUp e' attempts =>
      Forall notDone attempts
      /\ Z.of_nat (List.length attempts) = Recoveries e'
      /\ MaxRecoveries e < Recoveries e'
      /\ Z.of_nat (List.length attempts) <= Z.max 0 (MaxRecoveries e + 1)
  | Stalled attempts =>
      Forall notDone attempts
      /\ Z.of_nat (List.length attempts) <= MaxRecoveries e
  | NotConnected _ => False
  | OutOfFuel => True
  end.
Proof.
  intros Hmax. unfold runAsSequential.
  pose proof (recoveryLoop_outcome entry fuel (set_Recoveries e 0) []
                ltac:(cbn; unfold GoInt.min_int; lia) Hmax) as H.
  destruct (recoveryLoop fuel entry (set_Recoveries e 0) [])
    as [e' atts|e' atts|x|atts|]; cbn [loopOutcome app] in H;
    cbn [Recoveries MaxRecoveries set_Recoveries] in H.
  - destruct H as (failed & -> & Hall & Hd & Hr & Hb).
    rewrite length_app, Nat2Z.inj_add. cbn [List.length].
    repeat split; try assumption; try lia.
    exists failed. split; [reflexivity | assumption].
  - destruct H as (failed & -> & Hall & Hr & Hb & Hx).
    repeat split; try assumption; try lia.
    destruct failed as [|f failed']; [cbn; lia|].
    rewrite Hx in Hr by discriminate. lia.
  - exact H.
  - destruct H as (failed & -> & Hall & Hb).
    split; [assumption | lia].
  - exact I.
Qed.

Lemma runAsSequential_outcome_witness :
  match runAsSequential 3 true failingEntry scenarioEngine with
  | Succeeded e' attempts =>
      done e' = true
      /\ (exists failed, attempts = failed ++ [e'] /\ Forall notDone failed)
      /\ Z.of_nat (List.length attempts) = Recoveries e' + 1
      /\ Z.of_nat (List.length attempts) <= MaxRecoveries scenarioEngine + 1
  | GaveUp e' attempts =>
      Forall notDone attempts
      /\ Z.of_nat (List.length attempts) = Recoveries e'
      /\ MaxRecoveries scenarioEngine < Recoveries e'
      /\ Z.of_nat (List.length attempts)
         <= Z.max 0 (MaxRecoveries scenarioEngine + 1)
  | Stalled attempts =>
      Forall notDone attempts
      /\ Z.of_nat (List.length attempts) <= MaxRecoveries scenarioEngine
  | NotConnected _ => False
  | OutOfFuel => True
  end.
Proof.
  apply (runAsSequential_outcome 3 failingEntry scenarioEngine).
  vm_compute. reflexivity.
Defined.

(** ** What ends an attempt *)

Lemma handleChannelStatus_mode (e : Engine) (status : Z) :
  IsConcurrent (handleChannelStatus e status) = IsConcurrent e
  /\ UseDefaultChannelControl (handleChannelStatus e status)
     = UseDefaultChannelControl e.
Proof.
  unfold handleChannelStatus.
  destruct (negb (status =? StatusOK)); [split; reflexivity|].
  destruct (Failures e >? 0); split; reflexivity.
Qed.

Lemma setRecoveryStart_mode (e : Engine) :
  IsConcurrent (setRecoveryStart e) = IsConcurrent e
  /\ UseDefaultChannelControl (setRecoveryStart e)
     = UseDefaultChannelControl e.
Proof.
  unfold setRecoveryStart.
  destruct (negb (CurrentIndex e =? 0)); split; reflexivity.
Qed.

Lemma afterStop_spent (events : list Event) :
  forall e e' : Engine,
    afterStop e events = Some e' ->
    sequentialMode e -> spent e ->
    sequentialMode e' /\ spent e'.
Proof.
  induction events as [|ev rest IH]; intros e e' H Hmode Hspent; simpl in H.
  - injection H as <-. split; assumption.
  - destruct ev as [status| |index|]; [discriminate| | |];
      apply (IH _ _ H); try assumption.
    + left; reflexivity.
Qed.

Lemma channelControl_spent (events : list Event) :
  forall e e' : Engine,
    channelControl e events = Some e' ->
    sequentialMode e ->
    sequentialMode e' /\ spent e'.
Proof.
  assert (S : forall e, sequentialMode e -> shouldStop e = true -> spent e).
  { intros e [Hc _] Hs. apply shouldStop_true_iff in Hs.
    destruct Hs as [H|[[H _]|H]]; [right; exact H | congruence | left; exact H]. }
  induction events as [|ev rest IH]; intros e e' H Hmode; simpl in H.
  - destruct (shouldStop e) eqn:Hs; [|discriminate].
    injection H as <-. split; [exact Hmode | exact (S _ Hmode Hs)].
  - destruct ev as [status| |index|].
    + apply (IH _ _ H). destruct Hmode as [Hc Hu].
      destruct (handleChannelStatus_mode e status) as [Hc' Hu'].
      split; congruence.
    + destruct (shouldStop e) eqn:Hs.
      * exact (afterStop_spent _ _ _ H Hmode (S _ Hmode Hs)).
      * exact (IH _ _ H Hmode).
    + apply (IH _ _ H). exact Hmode.
    + apply (IH _ _ H). exact Hmode.
Qed.

Lemma runAttempt_spent (entry : EntryPoint) (e e' : Engine) :
  runAttempt entry e = Some e' ->
  sequentialMode e ->
  sequentialMode e' /\ spent e'.
Proof.
  unfold runAttempt. intros H Hmode.
  destruct Hmode as [Hc Hu]. rewrite Hu in H.
  exact (channelControl_spent _ _ _ H (conj Hc Hu)).
Qed.

Lemma recoveryLoop_spent (entry : EntryPoint) :
  forall (fuel : nat) (e : Engine) (acc : list Engine),
    sequentialMode e ->
    Forall spent acc ->
    Forall spent (attemptsOf (recoveryLoop fuel entry e acc)).
Proof.
  induction fuel as [|fuel IH]; intros e acc Hmode Hacc; cbn [recoveryLoop].
  - constructor.
  - destruct (Recoveries e <=? MaxRecoveries e); [|exact Hacc].
    destruct (runAttempt entry e) as [e1|] eqn:Hrun; [|exact Hacc].
    destruct (runAttempt_spent _ _ _ Hrun Hmode) as [[Hc1 Hu1] Hs1].
    assert (Hacc1 : Forall spent (acc ++ [e1])).
    { apply Forall_app. split; [exact Hacc | constructor; [exact Hs1 | constructor]]. }
    destruct (done e1); [exact Hacc1|].
    apply IH; [|exact Hacc1].
    destruct (setRecoveryStart_mode e1) as [Hc2 Hu2].
    split; cbn [IsConcurrent UseDefaultChannelControl set_Recoveries set_Failures];
      congruence.
Qed.

(** X10. In a sequential engine under the default listener an attempt ends
    only with the done mark set or the failure limit reached: every attempt of
    a sequential run, the ones followed by a recovery included, left the
    engine in one of these two states, in which [shouldStop] holds. *)
Theorem attempts_end_spent (fuel : nat) (entry : EntryPoint) (e : Engine) :
  IsConcurrent e = false ->
  UseDefaultChannelControl e = true ->
  Forall (fun a => (done a = true \/ MaxFailures a <= Failures a)
                   /\ shouldStop a = true)
    (attemptsOf (runAsSequential fuel true entry e)).
Proof.
  intros Hc Hu. unfold runAsSequential.
  pose proof (recoveryLoop_spent entry fuel (set_Recoveries e 0) []
                (conj Hc Hu) (Forall_nil _)) as H.
  eapply Forall_impl; [|exact H].
  intros a Ha. split; [exact Ha|].
  apply shouldStop_true_iff. destruct Ha as [Hd|Hf]; [right; right | left];
    assumption.
Qed.

Lemma attempts_end_spent_witness :
  Forall (fun a => (done a = true \/ MaxFailures a <= Failures a)
                   /\ shouldStop a = true)
    (attemptsOf (runAsSequential 3 true failingEntry scenarioEngine)).
Proof.
  apply (attempts_end_spent 3 failingEntry scenarioEngine); reflexivity.
Defined.

(** ** The range allocator below zero *)

Lemma allocate_below_zero (e : Engine) (w : Z) (n : nat) :
  forall c : Z,
    c <= -1 ->
    1 <= w ->
    GoInt.min_int <= Start e ->
    Start e + w <= -1 ->
    Forall (fun a => rangeStart a = Start e /\ rangeEnd a = Start e + w - 1
                     /\ cursorAfter a = Start e + w)
      (fst (allocate e (repeat w n) (mkControl c))).
Proof.
  induction n as [|n IH]; intros c Hc Hw Hlow Hneg.
  - constructor.
  - cbn [repeat allocate]. unfold setRange.
    cbn [LastGoRoutineRange].
    destruct (Z.gtb_spec c (-1)) as [H|_]; [lia|].
    cbn [Start ReplicaRange set_ReplicaRange set_End End].
    unfold GoInt.add, GoInt.sub.
    assert (I : forall z, GoInt.min_int <= z <= 0 -> GoInt.wrap z = z).
    { intros z Hz. apply wrap_id.
      unfold GoInt.in_int, GoInt.min_int, GoInt.max_int in *. lia. }
    rewrite (I (Start e + w)) by lia.
    rewrite (I (Start e + w - 1)) by lia.
    replace (Start e + w - 1 + 1) with (Start e + w) by lia.
    rewrite (I (Start e + w)) by lia.
    specialize (IH (Start e + w) Hneg Hw Hlow Hneg).
    destruct (allocate e (repeat w n) (mkControl (Start e + w)))
      as [allocations control2].
    cbn [fst] in *. constructor; [|exact IH].
    cbn. repeat split; reflexivity.
Qed.

Lemma allocate_length (e : Engine) (widths : list Z) :
  forall control : ControlConfig,
    List.length (fst (allocate e widths control)) = List.length widths.
Proof.
  induction widths as [|w l IH]; intros control; [reflexivity|].
  cbn [allocate].
  destruct (setRange (set_ReplicaRange e w) control) as [r c1].
  specialize (IH c1).
  destruct (allocate e l c1) as [allocations c2].
  cbn [fst List.length] in *. rewrite IH. reflexivity.
Qed.

(** X11. Below zero the cursor is not followed.  When the start index of the
    engine and the end of its first range are both negative, every replica,
    however many there are and wherever the cursor stood, is given this same
    first range. *)
Theorem negative_ranges_repeat (e : Engine) (w : Z) (n : nat) (c : Z) :
  c <= -1 ->
  1 <= w ->
  GoInt.min_int <= Start e ->
  Start e + w <= -1 ->
  map (fun a => (rangeStart a, rangeEnd a))
    (fst (allocate e (repeat w n) (mkControl c)))
  = repeat (Start e, Start e + w - 1) n.
Proof.
  intros Hc Hw Hlow Hneg.
  pose proof (allocate_below_zero e w n c Hc Hw Hlow Hneg) as H.
  assert (L : List.length (fst (allocate e (repeat w n) (mkControl c))) = n)
    by (rewrite allocate_length; apply repeat_length).
  revert H L. generalize (fst (allocate e (repeat w n) (mkControl c))).
  clear. intros l H. revert n.
  induction H as [|a l (Hs & He & _) _ IH]; intros n L.
  - cbn in L. subst n. reflexivity.
  - destruct n as [|n]; [discriminate|]. injection L as L.
    cbn [map repeat]. rewrite Hs, He, (IH n L). reflexivity.
Qed.

Lemma negative_ranges_repeat_witness :
  map (fun a => (rangeStart a, rangeEnd a))
    (fst (allocate (fst (seededEngine (-5) 2 2)) (repeat 2 3)
            (snd (seededEngine (-5) 2 2))))
  = repeat (-5, -4) 3.
Proof.
  apply (negative_ranges_repeat (fst (seededEngine (-5) 2 2)) 2 3 (-5)).
  - lia.
  - lia.
  - vm_compute. discriminate.
  - vm_compute. discriminate.
Defined.

(** ** The coordinator and its replicas *)

Lemma superviseStep_supervised (capacity : Z) (s s' : Supervision)
    (m : Meeting) :
  0 <= capacity <= GoInt.max_int ->
  supervised capacity s ->
  superviseStep s m = Some s' ->
  supervised capacity s'.
Proof.
  intros Hcap (I1 & I2 & I3 & I4) Hstep. unfold superviseStep in Hstep.
  assert (W : forall z, -1 <= z <= GoInt.max_int -> GoInt.wrap z = z).
  { intros z Hz. apply wrap_id.
    unfold GoInt.in_int, GoInt.min_int, GoInt.max_int in *. lia. }
  destruct (Z.eq_dec (activeEngines (counters s)) 0) as [Ha|Ha];
    [destruct (Z.eq_dec (maxEngines (counters s)) 0) as [Hm|Hm]|].
  - rewrite (proj2 (iterate_Return _ _) (conj Ha Hm)) in Hstep. discriminate.
  - rewrite iterate_running in Hstep by (right; exact Hm).
    destruct m; cbn [caseOf] in Hstep.
    + destruct (Z.ltb_spec (activeEngines (counters s)) (maxEngines (counters s)));
        injection Hstep as <-; unfold supervised, GoInt.add;
        cbn [counters running leaving exhausted activeEngines maxEngines];
        rewrite ?W by lia; repeat split; lia.
    + destruct (running s) eqn:Hr; [discriminate|]. lia.
    + destruct (running s) eqn:Hr; [discriminate|]. lia.
    + destruct (leaving s) eqn:Hl; [discriminate|]. lia.
  - rewrite iterate_running in Hstep by (left; exact Ha).
    destruct m; cbn [caseOf] in Hstep.
    + destruct (Z.ltb_spec (activeEngines (counters s)) (maxEngines (counters s)));
        injection Hstep as <-; unfold supervised, GoInt.add;
        cbn [counters running leaving exhausted activeEngines maxEngines];
        rewrite ?W by lia; repeat split; lia.
    + destruct (running s) eqn:Hr; [discriminate|].
      injection Hstep as <-; unfold supervised, GoInt.add;
        cbn [counters running leaving exhausted activeEngines maxEngines];
        rewrite ?W by lia; repeat split; lia.
    + destruct (running s) eqn:Hr; [discriminate|].
      injection Hstep as <-; unfold supervised, GoInt.add;
        cbn [counters running leaving exhausted activeEngines maxEngines];
        rewrite ?W by lia; repeat split; lia.
    + destruct (leaving s) eqn:Hl; [discriminate|].
      injection Hstep as <-; unfold supervised, GoInt.add;
        cbn [counters running leaving exhausted activeEngines maxEngines];
        rewrite ?W by lia; repeat split; lia.
Qed.

Lemma supervise_supervised (capacity : Z) (meetings : list Meeting) :
  0 <= capacity <= GoInt.max_int ->
  forall s s' : Supervision,
    supervised capacity s ->
    supervise s meetings = Some s' ->
    supervised capacity s'.
Proof.
  intros Hcap. induction meetings as [|m rest IH]; intros s s' Hs H;
    cbn [supervise] in H.
  - injection H as <-. exact Hs.
  - destruct (superviseStep s m) as [s1|] eqn:Hstep; [|discriminate].
    apply (IH s1 s'); [|exact H].
    exact (superviseStep_supervised capacity s s1 m Hcap Hs Hstep).
Qed.

(** X12. Along every run of the coordinator, whichever replicas end and give
    up and in whatever order their signals are met: the active count is the
    number of replicas that have not sent their last signal, the replicas
    that run never outnumber the capacity, the capacity is the configured
    number of replicas minus the replicas that gave up and is never negative,
    and the loop returns only when nothing runs any more and as many replicas
    have given up as were configured: a replica that ends otherwise leaves
    its place to a new one. *)
Theorem coordinator_supervision (engine : Engine) (meetings : list Meeting)
    (s : Supervision) :
  0 <= MaxReplicas engine <= GoInt.max_int ->
  supervise (supervisionStart engine) meetings = Some s ->
  activeEngines (counters s) = Z.of_nat (running s) + Z.of_nat (leaving s)
  /\ Z.of_nat (running s) <= maxEngines (counters s)
  /\ 0 <= maxEngines (counters s)
  /\ maxEngines (counters s) = MaxReplicas engine - Z.of_nat (exhausted s)
  /\ (forall case : Select,
        iterate (counters s) case = Return ->
        running s = O /\ leaving s = O
        /\ Z.of_nat (exhausted s) = MaxReplicas engine).
Proof.
  intros Hcap Hrun.
  assert (H0 : supervised (MaxReplicas engine) (supervisionStart engine)).
  { unfold supervised, supervisionStart. cbn. repeat split; lia. }
  destruct (supervise_supervised _ meetings Hcap _ _ H0 Hrun)
    as (I1 & I2 & I3 & I4).
  repeat split; try assumption; try lia;
    apply iterate_Return in H; destruct H as [Ha Hm]; lia.
Qed.

Lemma coordinator_supervision_witness :
  let s := mkSupervision (mkPool 2 2) 2 0 1 in
  activeEngines (counters s) = Z.of_nat (running s) + Z.of_nat (leaving s)
  /\ Z.of_nat (running s) <= maxEngines (counters s)
  /\ 0 <= maxEngines (counters s)
  /\ maxEngines (counters s)
     = MaxReplicas (fst replicaEngine) - Z.of_nat (exhausted s)
  /\ (forall case : Select,
        iterate (counters s) case = Return ->
        running s = O /\ leaving s = O
        /\ Z.of_nat (exhausted s) = MaxReplicas (fst replicaEngine)).
Proof.
  apply (coordinator_supervision (fst replicaEngine)
           [Poll; Poll; Poll; Poll; GaveUpFirst; Ended; GaveUpSecond; Poll]
           (mkSupervision (mkPool 2 2) 2 0 1)).
  - vm_compute. split; discriminate.
  - vm_compute. reflexivity.
Defined.

Lemma coordinate_nothing_to_do (cases : list Select) (n : nat) :
  coordinate (mkPool 0 0) cases n = (mkPool 0 0, n, true).
Proof. destruct cases; reflexivity. Qed.

(** X13. An engine built without a [Concurrency] of positive arguments has no
    capacity: [runAsConcurrent] returns at its first iteration, whatever
    there would be to receive, without starting a single replica. *)
Theorem runAsConcurrent_without_concurrency (calls : list OptionCall)
    (control : ControlConfig) (cases : list Select) :
  existsb validConcurrency calls = false ->
  runAsConcurrent (fst (build calls control)) cases = (mkPool 0 0, O, true).
Proof.
  intros H. unfold runAsConcurrent.
  assert (H0 : concurrencySettled (fst (defaultEngine, control))).
  { split; [discriminate | intros _; split; reflexivity]. }
  destruct (applyCalls_concurrency calls _ H0) as [[_ Hf] E].
  change (build calls control) with (applyCalls calls (defaultEngine, control)).
  rewrite H in E. cbn [fst defaultEngine IsConcurrent orb] in E.
  destruct (Hf E) as [-> _]. apply coordinate_nothing_to_do.
Qed.

Lemma runAsConcurrent_without_concurrency_witness :
  runAsConcurrent
    (fst (build [CallStart 0; CallConcurrency 3 0; CallMaxFailures 2]
            (mkControl (-1))))
    [Default; FromActiveEngines 1; Default]
  = (mkPool 0 0, O, true).
Proof.
  apply (runAsConcurrent_without_concurrency
           [CallStart 0; CallConcurrency 3 0; CallMaxFailures 2]
           (mkControl (-1)) [Default; FromActiveEngines 1; Default]).
  reflexivity.
Defined.

Lemma setRange_budget (e : Engine) (control : ControlConfig) :
  Recoveries (fst (setRange e control)) = Recoveries e
  /\ MaxRecoveries (fst (setRange e control)) = MaxRecoveries e.
Proof.
  unfold setRange. destruct (LastGoRoutineRange control >? -1);
    split; reflexivity.
Qed.

(** X14. [spawnEngine] does not reset the recovery count, as
    [runAsSequential] does.  A replica of an engine whose recovery count is
    already past the maximum takes its range from the cursor, makes no
    attempt at all, and signals the coordinator that it gave up. *)
Theorem spawnEngine_with_spent_budget (fuel : nat) (entry : EntryPoint)
    (e : Engine) (control : ControlConfig) :
  MaxRecoveries e < Recoveries e ->
  (1 <= fuel)%nat ->
  spawnEngine fuel true entry e control
  = (GaveUp (fst (setRange e control)) [],
     [OnMaxEngines (-1); OnActiveEngines (-1)],
     snd (setRange e control)).
Proof.
  intros Hspent Hfuel. unfold spawnEngine.
  destruct (setRange_budget e control) as [Hr Hm].
  destruct (setRange e control) as [e1 c1]. cbn [fst snd] in *.
  destruct fuel as [|fuel]; [lia|]. cbn [recoveryLoop].
  destruct (Z.leb_spec (Recoveries e1) (MaxRecoveries e1)) as [H|_]; [lia|].
  reflexivity.
Qed.

Lemma spawnEngine_with_spent_budget_witness :
  spawnEngine 1 true failingEntry
    (set_Recoveries (fst replicaEngine) 2) (snd replicaEngine)
  = (GaveUp
       (fst (setRange (set_Recoveries (fst replicaEngine) 2)
               (snd replicaEngine))) [],
     [OnMaxEngines (-1); OnActiveEngines (-1)],
     snd (setRange (set_Recoveries (fst replicaEngine) 2)
            (snd replicaEngine))).
Proof.
  apply (spawnEngine_with_spent_budget 1 failingEntry
           (set_Recoveries (fst replicaEngine) 2) (snd replicaEngine)).
  - vm_compute. reflexivity.
  - lia.
Defined.
